(** * git-cc: the conventional-commit parser and the header serializer

    A shallow embedding of [pkg/parser/parser.go] (the grammar, [ParseHeader],
    [ParseRest], [splitOutFirstLine], [ParseCC]) and of the serializer
    [model.value] of [cmd/git-cc/main.go].

    Go strings are modelled by [string] and [[]rune] by [list ascii]: one
    [ascii] stands for one character.  The operations the parser performs on
    strings ([strings.SplitN] on "\r\n" and "\n", [strings.TrimRight] on
    ASCII white space, [len(s) == 0] and the conversions to and from
    [[]rune]) commute with UTF-8 decoding, so nothing below depends on the
    width of a character. *)

From Stdlib Require Import String Ascii List Bool Arith ZArith Lia.
Import ListNotations.
Open Scope string_scope.

(** ** Characters, strings and rune slices *)

Definition rune := ascii.
Definition runes := list rune.

Definition LF : rune := "010"%char.
Definition CR : rune := "013"%char.
Definition TAB : rune := "009"%char.

(** The Go literals ["\n"] and ["\r\n"]. *)
Definition nl : string := String LF "".
Definition crlf : string := String CR (String LF "").

(** [[]rune(s)] and [string(rs)]. *)
Definition to_runes (s : string) : runes := list_ascii_of_string s.
Definition of_runes (rs : runes) : string := string_of_list_ascii rs.

(** [strings.HasPrefix]. *)
Definition HasPrefix (s p : string) : bool := String.prefix p s.

(** [strings.Contains]. *)
Fixpoint Contains (s sub : string) : bool :=
  HasPrefix s sub ||
  match s with
  | EmptyString => false
  | String _ s' => Contains s' sub
  end.

(** [s[n:]] for [n <= len(s)]. *)
Fixpoint drop (n : nat) (s : string) : string :=
  match n, s with
  | O, _ => s
  | S _, EmptyString => EmptyString
  | S n', String _ s' => drop n' s'
  end.

(** [strings.Cut]: the text before and after the first occurrence of a
    non-empty separator. *)
Fixpoint Cut (s sep : string) : option (string * string) :=
  if HasPrefix s sep then Some (EmptyString, drop (String.length sep) s)
  else
    match s with
    | EmptyString => None
    | String c s' =>
        match Cut s' sep with
        | Some (before, after) => Some (String c before, after)
        | None => None
        end
    end.

(** [strings.SplitN(s, sep, n)] for a non-empty [sep] and [n > 0]: at most
    [n] pieces, the last one holding the unsplit remainder. *)
Fixpoint SplitN (s sep : string) (n : nat) : list string :=
  match n with
  | O => []
  | S O => [s]
  | S n' =>
      match Cut s sep with
      | None => [s]
      | Some (before, after) => before :: SplitN after sep n'
      end
  end.

(** Membership of a character in a cut set. *)
Fixpoint inCutset (c : rune) (cutset : string) : bool :=
  match cutset with
  | EmptyString => false
  | String d cutset' => Ascii.eqb c d || inCutset c cutset'
  end.

(** [strings.TrimRight(s, cutset)]. *)
Fixpoint TrimRight (s cutset : string) : string :=
  match s with
  | EmptyString => EmptyString
  | String c s' =>
      match TrimRight s' cutset with
      | EmptyString => if inCutset c cutset then EmptyString else String c EmptyString
      | r => String c r
      end
  end.

(** The cut set ["\n\r\t "] of [ParseCC]. *)
Definition whitespace : string := String LF (String CR (String TAB " ")).

(** ** Errors and panics *)

Inductive error : Type :=
| Errorf (msg : string)                        (* [fmt.Errorf(msg)] *)
| ParseFailure (rule : string) (rest : runes). (* a combinator that did not match *)

Inductive panic_value : Type :=
| PanicError (e : error)            (* [panic(err)] *)
| IndexOutOfRange (i len : nat).    (* the run-time panic of [s[i]] *)

(** What a call does: it returns, or it panics. *)
Inductive outcome (A : Type) : Type :=
| Returns (a : A)
| Panics (p : panic_value).
Arguments Returns {A} a.
Arguments Panics {A} p.

Definition bind {A B : Type} (m : outcome A) (k : A -> outcome B) : outcome B :=
  match m with
  | Returns a => k a
  | Panics p => Panics p
  end.

Notation "x <- m ;; k" := (bind m (fun x => k))
  (at level 61, m at next level, right associativity).

(** ** Parse nodes and parsers *)

#[local] Unset Elimination Schemes.
Inductive Result : Type :=
  mkResult {
    Type_ : string;
    Value : string;
    Children : list Result;
    Remaining : runes
  }.

#[local] Set Elimination Schemes.

Definition Parser : Type := runes -> Result + error.

(** [s[i]] on a slice of parse nodes. *)
Definition index (cs : list Result) (i : nat) : outcome Result :=
  match nth_error cs i with
  | Some r => Returns r
  | None => Panics (IndexOutOfRange i (List.length cs))
  end.

(** The combinator core is a separate file of the package; the grammar only
    composes its primitives. *)
Class CombinatorCore : Type := {
  LiteralRune : rune -> Parser;
  Tag : string -> Parser;
  Regex : string -> Parser;
  Empty : Parser;
  Sequence : list Parser -> Parser;
  Any : list Parser -> Parser;
  Opt : Parser -> Parser;
  Many0 : Parser -> Parser;
  TakeUntil : Parser -> Parser;
  Delimeted : Parser -> Parser -> Parser -> Parser;
  Marked : string -> Parser -> Parser
}.

(** ** The records of [parser.go] *)

Record CC : Type := mkCC {
  cc_Type : string;
  cc_Scope : string;
  cc_Description : string;
  cc_Body : string;
  cc_Footers : list string;
  cc_BreakingChange : bool
}.

Record CCHeader : Type := mkCCHeader {
  h_Type : string;
  h_Scope : string;
  h_Description : string;
  h_BreakingChange : bool
}.

Record CCRest : Type := mkCCRest {
  r_Body : string;
  r_Footers : list string;
  r_BreakingChange : bool
}.

(** The zero values [CC{}], [CCHeader{}] and [CCRest{}]. *)
Definition zeroCC : CC := mkCC "" "" "" "" [] false.
Definition zeroCCHeader : CCHeader := mkCCHeader "" "" "" false.
Definition zeroCCRest : CCRest := mkCCRest "" [] false.

(** [splitOutFirstLine]. *)
Definition splitOutFirstLine (s : string) : string * string :=
  let result := SplitN s crlf 2 in
  let result := if (List.length result =? 1)%nat then SplitN s nl 2 else result in
  match result with
  | [first] => (first, "")
  | first :: second :: _ => (first, second)
  | [] => ("", "")
  end.

Section Grammar.
Context {core : CombinatorCore}.

Definition Newline : Parser := Marked "Newline" (Any [LiteralRune LF; Tag crlf]).
Definition DoubleNewline : Parser := Sequence [Newline; Newline].
Definition ColonSep : Parser := Tag ": ".

Definition BreakingChangeBang : Parser := Marked "BreakingChangeBang" (Tag "!").

Definition CommitType : Parser :=
  Marked "CommitType" (TakeUntil (Any [BreakingChangeBang; Tag ":"; Tag "("])).

Definition Scope : Parser :=
  Marked "Scope" (Delimeted (Tag "(") (TakeUntil (Tag ")")) (Tag ")")).

Definition Context : Parser :=
  Sequence [CommitType; Opt Scope; Opt BreakingChangeBang].

(** One round of the loop over [ctx.Children] in [ParseHeader]. *)
Definition headerChild (header : CCHeader) (child : Result) : CCHeader :=
  if Type_ child =? "BreakingChangeBang" then
    mkCCHeader (h_Type header) (h_Scope header) (h_Description header) true
  else if Type_ child =? "Scope" then
    mkCCHeader (h_Type header) (Value child) (h_Description header)
               (h_BreakingChange header)
  else if Type_ child =? "CommitType" then
    mkCCHeader (Value child) (h_Scope header) (h_Description header)
               (h_BreakingChange header)
  else header.

Definition ParseHeader (head : runes) : outcome (CCHeader * option error) :=
  let header := zeroCCHeader in
  match Context head with
  | inr ctxErr => Returns (header, Some ctxErr)
  | inl ctx =>
      let header := fold_left headerChild (Children ctx) header in
      match Sequence [ColonSep; TakeUntil Empty] (Remaining ctx) with
      | inl desc =>
          d <- index (Children desc) 1 ;;
          Returns (mkCCHeader (h_Type header) (h_Scope header) (Value d)
                              (h_BreakingChange header), None)
      | inr descErr => Returns (header, Some descErr)
      end
  end.

Definition BreakingChange : Parser :=
  Any [Tag "BREAKING CHANGE"; Tag "BREAKING-CHANGE"].

Definition KebabWord : Parser := Regex "[\w-]+".

Definition FooterToken : Parser :=
  Any [Marked "BreakingChange" (Sequence [BreakingChange; ColonSep]);
       Sequence [KebabWord; Any [ColonSep; Tag " #"]]].

Definition Body : Parser := Sequence [Newline; TakeUntil (Any [Empty; FooterToken])].
Definition Footer : Parser := Sequence [FooterToken; TakeUntil (Any [Empty; FooterToken])].
Definition Footers : Parser := Many0 Footer.

(** The loop over [result.Children] in [ParseRest]: the footers collected in
    order and the breaking-change flag. *)
Fixpoint restFooters (children : list Result) : outcome (list string * bool) :=
  match children with
  | [] => Returns ([], false)
  | footer :: children' =>
      token <- index (Children footer) 0 ;;
      acc <- restFooters children' ;;
      Returns (Value footer :: fst acc,
               (Type_ token =? "BreakingChange") || snd acc)
  end.

Definition ParseRest (input : runes) : outcome (CCRest * option error) :=
  let rest := zeroCCRest in
  match Body input with
  | inr err => Returns (rest, Some err)
  | inl result =>
      b <- index (Children result) 1 ;;
      let rest := mkCCRest (Value b) (r_Footers rest) (r_BreakingChange rest) in
      match Footers (Remaining result) with
      | inr err => Returns (rest, Some err)
      | inl result =>
          fb <- restFooters (Children result) ;;
          Returns (mkCCRest (r_Body rest) (fst fb) (snd fb), None)
      end
  end.

Definition ParseCC (fullCommit : string) : outcome (CC * option error) :=
  let cc := zeroCC in
  let '(firstLine, otherLines) := splitOutFirstLine fullCommit in
  if (String.length firstLine =? 0)%nat then Returns (cc, Some (Errorf "empty commit"))
  else
    hr <- ParseHeader (to_runes firstLine) ;;
    match snd hr with
    | Some headerErr => Panics (PanicError headerErr)
    | None =>
        let header := fst hr in
        let cc := mkCC (h_Type header) (h_Scope header) (cc_Description cc)
                       (cc_Body cc) (cc_Footers cc) (h_BreakingChange header) in
        let otherLines := TrimRight otherLines whitespace in
        if (0 <? String.length otherLines)%nat then
          rr <- ParseRest (to_runes otherLines) ;;
          match snd rr with
          | Some restErr => Panics (PanicError restErr)
          | None =>
              let rest := fst rr in
              Returns (mkCC (cc_Type cc) (cc_Scope cc) (cc_Description cc)
                            (r_Body rest) (r_Footers rest)
                            (cc_BreakingChange cc || r_BreakingChange rest),
                       None)
          end
        else Returns (cc, None)
    end.

End Grammar.

(** ** The serializer of [cmd/git-cc/main.go] *)

Inductive componentIndex : Type :=
| commitTypeIndex
| scopeIndex
| shortDescriptionIndex
| breakingChangeIndex
| doneIndex.

(** The part of [model] the serializer reads: the array [commit], indexed by
    the components before [doneIndex]. *)
Record model : Type := mkModel {
  commit : componentIndex -> string
}.

(** The model holding the four texts the composer collected. *)
Definition modelOf (type scope description breaking : string) : model :=
  mkModel (fun i =>
    match i with
    | commitTypeIndex => type
    | scopeIndex => scope
    | shortDescriptionIndex => description
    | breakingChangeIndex => breaking
    | doneIndex => ""
    end).

Definition nonEmpty (s : string) : bool := negb (s =? "").

Definition contextValue (m : model) : string :=
  let result := "" in
  let result := result ++ commit m commitTypeIndex in
  let scope := commit m scopeIndex in
  let result := if nonEmpty scope then result ++ ("(" ++ scope ++ ")") else result in
  result.

Definition value (m : model) : string :=
  let result := "" in
  let result := result ++ contextValue m in
  let breakingChange := commit m breakingChangeIndex in
  let result := if nonEmpty breakingChange then result ++ "!" else result in
  let result := result ++ (": " ++ commit m shortDescriptionIndex ++ nl) in
  let result :=
    if nonEmpty breakingChange
    then result ++ (nl ++ "BREAKING CHANGE: " ++ breakingChange ++ nl)
    else result in
  result.

(** ** The combinator core, from its contracts *)

Module Core.

(** Modelled from the spec: the node of a leaf match.  The combinator file is
    not part of the sources at hand; a leaf carries the text it consumed, no
    children and the unconsumed input, and its kind stays empty until
    [Marked] names it. *)
Definition leaf (text : string) (remaining : runes) : Result :=
  mkResult "" text [] remaining.

(** Modelled from the spec: what is left of the input after the literal
    prefix [p], when the input starts with it (the test [Tag] performs). *)
Fixpoint stripPrefix (p input : runes) : option runes :=
  match p, input with
  | [], _ => Some input
  | _ :: _, [] => None
  | c :: p', r :: input' => if Ascii.eqb c r then stripPrefix p' input' else None
  end.

(** Modelled from the spec: [LiteralRune(c)] succeeds consuming exactly one
    character equal to [c]; fails otherwise, including on empty input. *)
Definition LiteralRune (c : rune) : Parser := fun input =>
  match input with
  | r :: rest =>
      if Ascii.eqb r c then inl (leaf (String c "") rest)
      else inr (ParseFailure "LiteralRune" input)
  | [] => inr (ParseFailure "LiteralRune" input)
  end.

(** Modelled from the spec: [Tag(s)] succeeds consuming the literal prefix
    [s] if the input starts with it; fails otherwise. *)
Definition Tag (s : string) : Parser := fun input =>
  match stripPrefix (to_runes s) input with
  | Some rest => inl (leaf s rest)
  | None => inr (ParseFailure "Tag" input)
  end.

(** Modelled from the spec: the characters of the class [[\w-]], that is the
    ASCII letters, the digits, the underscore and the hyphen. *)
Definition isKebab (c : rune) : bool :=
  let n := nat_of_ascii c in
  ((48 <=? n) && (n <=? 57) || (65 <=? n) && (n <=? 90) ||
   (97 <=? n) && (n <=? 122) || (n =? 95) || (n =? 45))%nat.

(** Modelled from the spec: the longest prefix of characters satisfying [f],
    with what follows it. *)
Fixpoint span (f : rune -> bool) (input : runes) : runes * runes :=
  match input with
  | c :: rest =>
      if f c then let '(taken, rest') := span f rest in (c :: taken, rest')
      else ([], input)
  | [] => ([], [])
  end.

(** Modelled from the spec: [Regex(pattern)] succeeds consuming the longest
    prefix matching [pattern] anchored at the start; fails if there is no
    match at position 0.  The grammar uses the single pattern of
    [KebabWord]; any other pattern is left uninterpreted and fails. *)
Definition Regex (pattern : string) : Parser := fun input =>
  if pattern =? "[\w-]+" then
    match span isKebab input with
    | ([], _) => inr (ParseFailure "Regex" input)
    | (taken, rest') => inl (leaf (of_runes taken) rest')
    end
  else inr (ParseFailure "Regex" input).

(** Modelled from the spec: [Empty] is zero-width; it succeeds consuming
    nothing iff the input is exhausted. *)
Definition Empty : Parser := fun input =>
  match input with
  | [] => inl (leaf "" [])
  | _ :: _ => inr (ParseFailure "Empty" input)
  end.

(** Modelled from the spec: the text between the start of [input] and the
    start of what remains of it; a node's value is the exact substring its
    match consumed. *)
Definition consumed (input remaining : runes) : string :=
  of_runes (firstn (List.length input - List.length remaining) input).

(** Modelled from the spec: each parser run against the remainder left by
    the previous one; the sub-results in order and the final remainder, or
    the first failure. *)
Fixpoint runAll (ps : list Parser) (input : runes) : (list Result * runes) + error :=
  match ps with
  | [] => inl ([], input)
  | p :: ps' =>
      match p input with
      | inr e => inr e
      | inl r =>
          match runAll ps' (Remaining r) with
          | inr e => inr e
          | inl (rs, rest') => inl (r :: rs, rest')
          end
      end
  end.

(** Modelled from the spec: [Sequence(p1...pn)] succeeds only if all
    parsers succeed in order, producing a node whose children are the
    sub-results and whose remaining input is what is left after the last. *)
Definition Sequence (ps : list Parser) : Parser := fun input =>
  match runAll ps input with
  | inl (rs, rest') => inl (mkResult "" (consumed input rest') rs rest')
  | inr e => inr e
  end.

(** Modelled from the spec: [Any(p1...pn)] is ordered choice; it returns the
    first success and fails only if all alternatives fail. *)
Fixpoint Any (ps : list Parser) : Parser := fun input =>
  match ps with
  | [] => inr (ParseFailure "Any" input)
  | p :: ps' =>
      match p input with
      | inl r => inl r
      | inr _ => Any ps' input
      end
  end.

(** Modelled from the spec: [Opt(p)] returns the result of [p] on success
    and a zero-width empty match with the input untouched on failure. *)
Definition Opt (p : Parser) : Parser := fun input =>
  match p input with
  | inl r => inl r
  | inr _ => inl (leaf "" input)
  end.

(** Modelled from the spec: the greedy repetition behind [Many0]: the
    successes of [p] in order up to its first failure, and what is left.
    The spec bounds the repetition by the length of the input; [fuel] is
    that bound. *)
Fixpoint repeat0 (p : Parser) (fuel : nat) (input : runes) : list Result * runes :=
  match fuel with
  | O => ([], input)
  | S fuel' =>
      match p input with
      | inr _ => ([], input)
      | inl r => let '(rs, rest') := repeat0 p fuel' (Remaining r) in (r :: rs, rest')
      end
  end.

(** Modelled from the spec: [Many0(p)] repeats [p] greedily, stops at its
    first failure and always succeeds, collecting the successes as
    children. *)
Definition Many0 (p : Parser) : Parser := fun input =>
  let '(rs, rest') := repeat0 p (S (List.length input)) input in
  inl (mkResult "" (consumed input rest') rs rest').

(** Modelled from the spec: [TakeUntil(stop)] scans forward one character at
    a time, testing [stop] as a lookahead that consumes nothing; the first
    position where [stop] succeeds ends the match and the characters
    strictly before it are the value; it fails if [stop] succeeds at no
    position up to and including the end of the input. *)
Fixpoint TakeUntil (stop : Parser) (input : runes) : Result + error :=
  match stop input with
  | inl _ => inl (leaf "" input)
  | inr _ =>
      match input with
      | [] => inr (ParseFailure "TakeUntil" input)
      | c :: rest =>
          match TakeUntil stop rest with
          | inl r => inl (leaf (String c (Value r)) (Remaining r))
          | inr e => inr e
          end
      end
  end.

(** Modelled from the spec: [Delimeted(open, inner, close)] matches the
    three in sequence and returns the result of [inner], with the remaining
    input that of [close]. *)
Definition Delimeted (open inner close : Parser) : Parser := fun input =>
  match open input with
  | inr e => inr e
  | inl o =>
      match inner (Remaining o) with
      | inr e => inr e
      | inl i =>
          match close (Remaining i) with
          | inr e => inr e
          | inl c => inl (mkResult (Type_ i) (Value i) (Children i) (Remaining c))
          end
      end
  end.

(** Modelled from the spec: [Marked(kind)(p)] re-tags the node of a success
    of [p] with [kind], keeping its value, children and remaining input. *)
Definition Marked (kind : string) (p : Parser) : Parser := fun input =>
  match p input with
  | inl r => inl (mkResult kind (Value r) (Children r) (Remaining r))
  | inr e => inr e
  end.

End Core.

(** Modelled from the spec: the combinator core assembled from the
    primitives of section 4.1. *)
#[export] Instance specCore : CombinatorCore := {|
  LiteralRune := Core.LiteralRune;
  Tag := Core.Tag;
  Regex := Core.Regex;
  Empty := Core.Empty;
  Sequence := Core.Sequence;
  Any := Core.Any;
  Opt := Core.Opt;
  Many0 := Core.Many0;
  TakeUntil := Core.TakeUntil;
  Delimeted := Core.Delimeted;
  Marked := Core.Marked
|}.

(** ** What [ParseCC] hands to the grammar *)

(** The first line [ParseCC] parses as the header, and the trimmed remainder
    it parses as body and footers. *)
Definition firstLineOf (fullCommit : string) : string :=
  fst (splitOutFirstLine fullCommit).

Definition otherLinesOf (fullCommit : string) : string :=
  TrimRight (snd (splitOutFirstLine fullCommit)) whitespace.

(** A call that did not deliver a result free of error: it panicked with
    [p], or it returned the error that [p] carries. *)
Definition failsWith {A : Type} (o : outcome (A * option error)) (p : panic_value) : Prop :=
  o = Panics p \/ exists a e, o = Returns (a, Some e) /\ p = PanicError e.

(** The characters at which [CommitType] stops: those the alternatives of
    its stop parser start with. *)
Definition endsType (c : rune) : bool :=
  Ascii.eqb "!" c || Ascii.eqb ":" c || Ascii.eqb "(" c.

(** What can be seen of a breaking change in the text [value] writes: the
    bang right after type and scope, and the footer after a blank line
    behind the header line. *)
Definition bangWritten (m : model) : Prop :=
  HasPrefix (value m) (contextValue m ++ "!") = true.

Definition footerWritten (m : model) : Prop :=
  exists mark,
    value m = contextValue m ++ mark ++ ": " ++ commit m shortDescriptionIndex ++ nl
              ++ nl ++ "BREAKING CHANGE: " ++ commit m breakingChangeIndex ++ nl.

(** The scenario of the specification, a commit with scope, bang and a
    breaking-change footer. *)
Definition scenario : string :=
  "feat(parser)!: support scopes" ++ nl ++ nl
  ++ "BREAKING CHANGE: old API removed" ++ nl.

(** A header without bang over a breaking-change footer. *)
Definition footerOnly : string :=
  "fix: thing" ++ nl ++ nl ++ "BREAKING CHANGE: removes X".

(** A commit whose header ends with ["\n"] and whose second line ends with
    ["\r\n"]. *)
Definition mixedEndings : string := "a" ++ nl ++ "b" ++ crlf ++ "c".

(** A commit that starts with a blank line and whose header line ends with
    ["\r\n"]. *)
Definition blankFirstLine : string := nl ++ "fix!: x" ++ crlf.

(** Whether a text ends with a carriage return, and whether it starts with
    a line feed: the two halves of a ["\r\n"] across a concatenation. *)
Fixpoint endsWithCR (s : string) : bool :=
  match s with
  | EmptyString => false
  | String c EmptyString => Ascii.eqb CR c
  | String _ s' => endsWithCR s'
  end.

Definition startsWithLF (s : string) : bool :=
  match s with
  | EmptyString => false
  | String c _ => Ascii.eqb LF c
  end.

(** ** The composer of [cmd/git-cc/main.go] *)

(** The numbers [iota] gives the component indices. *)
Definition indexNumber (i : componentIndex) : Z :=
  match i with
  | commitTypeIndex => 0
  | scopeIndex => 1
  | shortDescriptionIndex => 2
  | breakingChangeIndex => 3
  | doneIndex => 4
  end.

(** The element an [int] selects in an array of length [doneIndex], if it is
    in range. *)
Definition componentAt (n : Z) : option componentIndex :=
  if (n =? 0)%Z then Some commitTypeIndex
  else if (n =? 1)%Z then Some scopeIndex
  else if (n =? 2)%Z then Some shortDescriptionIndex
  else if (n =? 3)%Z then Some breakingChangeIndex
  else None.

(** The messages [Update] tells apart: the keys it names, any other key,
    and any message that is not a key. *)
Inductive KeyType : Type :=
| KeyCtrlC
| KeyCtrlD
| KeyShiftTab
| KeyEnter
| KeyOther (code : nat).

Inductive Msg : Type :=
| KeyMsg (key : KeyType)
| OtherMsg (tag : nat).

(** [tea.Cmd], as far as [Update] produces it: [nil] or [tea.Quit]. *)
Inductive Cmd : Type :=
| CmdNil
| Quit.

(** The input components are packages of their own; the composer uses what
    is listed here of them. *)
Class InputComponents : Type := {
  single_select : Type;
  description_editor : Type;
  breaking_change_input : Type;
  select_Update : single_select -> Msg -> single_select;
  select_Value : single_select -> string;
  select_View : single_select -> string;
  select_SetErr : single_select -> error -> single_select;
  editor_Update : description_editor -> Msg -> description_editor;
  editor_Value : description_editor -> string;
  editor_View : description_editor -> string;
  editor_SetPrefix : description_editor -> string -> description_editor;
  editor_SetErr : description_editor -> error -> description_editor;
  breaking_Update : breaking_change_input -> Msg -> breaking_change_input;
  breaking_Value : breaking_change_input -> string;
  breaking_View : breaking_change_input -> string
}.

(** The channel [choice], made with a buffer of one string: the strings in
    the buffer, oldest first. *)
Definition chan : Type := list string.

(** [ch <- v]: the buffer with [v] added, or nothing when the buffer is full
    and the sender blocks. *)
Definition send (ch : chan) (v : string) : option chan :=
  if (List.length ch <? 1)%nat then Some (ch ++ [v])%list else None.

(** What a step of the program does: it goes on, it panics, it leaves the
    process through [os.Exit] after printing, or it blocks on the channel. *)
Inductive effect (A : Type) : Type :=
| Continues (a : A)
| Crashes (p : panic_value)
| Exits (code : Z) (printed : string)
| Blocks.
Arguments Continues {A} a.
Arguments Crashes {A} p.
Arguments Exits {A} code printed.
Arguments Blocks {A}.

(** [m.ready()]. *)
Definition ready (m : model) : bool :=
  (0 <? String.length (commit m commitTypeIndex))%nat &&
  (0 <? String.length (commit m shortDescriptionIndex))%nat.

(** [m.commit[i] = v] for an index in range. *)
Definition setCommit (m : model) (i : componentIndex) (v : string) : model :=
  mkModel (fun j =>
    if (indexNumber j =? indexNumber i)%Z then v else commit m j).

Section Composer.
Context {inputs : InputComponents}.

(** The struct [model] in full: the texts collected so far (the record
    [model] above), the step in view and the four input components.  The
    channel is shared by all copies of the struct and is passed along on its
    own. *)
Record composer : Type := mkComposer {
  texts : model;
  viewing : Z;
  typeInput : single_select;
  scopeInput : single_select;
  descriptionInput : description_editor;
  breakingChangeInput : breaking_change_input
}.

(** [initialModel], for the components built from the configuration. *)
Definition initialModel (typeModel scopeModel : single_select)
    (descModel : description_editor) (bcModel : breaking_change_input) : composer :=
  mkComposer (modelOf "" "" "" "") (indexNumber commitTypeIndex)
             typeModel scopeModel descModel bcModel.

(** [m.currentComponent().Value()] and [m.currentComponent().View()]: the
    array of the four components indexed by [m.viewing]. *)
Definition currentValue (m : composer) : outcome string :=
  match componentAt (viewing m) with
  | Some commitTypeIndex => Returns (select_Value (typeInput m))
  | Some scopeIndex => Returns (select_Value (scopeInput m))
  | Some shortDescriptionIndex => Returns (editor_Value (descriptionInput m))
  | Some breakingChangeIndex => Returns (breaking_Value (breakingChangeInput m))
  | _ => Panics (IndexOutOfRange (Z.to_nat (viewing m)) 4)
  end.

Definition View (m : composer) : outcome string :=
  match componentAt (viewing m) with
  | Some commitTypeIndex => Returns (select_View (typeInput m))
  | Some scopeIndex => Returns (select_View (scopeInput m))
  | Some shortDescriptionIndex => Returns (editor_View (descriptionInput m))
  | Some breakingChangeIndex => Returns (breaking_View (breakingChangeInput m))
  | _ => Panics (IndexOutOfRange (Z.to_nat (viewing m)) 4)
  end.

Definition updateCurrentInput (m : composer) (msg : Msg) : composer :=
  if (viewing m =? indexNumber commitTypeIndex)%Z then
    mkComposer (texts m) (viewing m) (select_Update (typeInput m) msg) (scopeInput m)
               (descriptionInput m) (breakingChangeInput m)
  else if (viewing m =? indexNumber scopeIndex)%Z then
    mkComposer (texts m) (viewing m) (typeInput m) (select_Update (scopeInput m) msg)
               (descriptionInput m) (breakingChangeInput m)
  else if (viewing m =? indexNumber shortDescriptionIndex)%Z then
    mkComposer (texts m) (viewing m) (typeInput m) (scopeInput m)
               (editor_Update (descriptionInput m) msg) (breakingChangeInput m)
  else if (viewing m =? indexNumber breakingChangeIndex)%Z then
    mkComposer (texts m) (viewing m) (typeInput m) (scopeInput m)
               (descriptionInput m) (breaking_Update (breakingChangeInput m) msg)
  else m.

(** [m.done()]: the message for [main] goes into the channel, and the
    framework is asked to quit. *)
Definition done (m : composer) (ch : chan) : effect (composer * Cmd * chan) :=
  match send ch (if ready (texts m) then value (texts m) else "") with
  | Some ch' => Continues (m, Quit, ch')
  | None => Blocks
  end.

(** [m.Update(msg)]. *)
Definition Update (m : composer) (ch : chan) (msg : Msg)
  : effect (composer * Cmd * chan) :=
  let cmd := CmdNil in
  match msg with
  | KeyMsg KeyCtrlC | KeyMsg KeyCtrlD => done m ch
  | KeyMsg KeyShiftTab =>
      let m := if (indexNumber commitTypeIndex <? viewing m)%Z
               then mkComposer (texts m) (viewing m - 1) (typeInput m) (scopeInput m)
                               (descriptionInput m) (breakingChangeInput m)
               else m in
      Continues (m, cmd, ch)
  | KeyMsg KeyEnter =>
      if (viewing m =? indexNumber scopeIndex)%Z then
        let m := mkComposer (texts m) (viewing m) (typeInput m) (scopeInput m)
                   (editor_SetPrefix (descriptionInput m) (contextValue (texts m) ++ ": "))
                   (breakingChangeInput m) in
        let m := mkComposer (texts m) (viewing m + 1) (typeInput m) (scopeInput m)
                            (descriptionInput m) (breakingChangeInput m) in
        Continues (m, cmd, ch)
      else if (viewing m =? indexNumber breakingChangeIndex)%Z then
        let m := mkComposer
                   (setCommit (texts m) breakingChangeIndex
                              (breaking_Value (breakingChangeInput m)))
                   (viewing m) (typeInput m) (scopeInput m)
                   (descriptionInput m) (breakingChangeInput m) in
        if ready (texts m) then done m ch
        else
          let err := Errorf "required" in
          let m :=
            if commit (texts m) commitTypeIndex =? "" then
              mkComposer (texts m) (indexNumber commitTypeIndex)
                         (select_SetErr (typeInput m) err) (scopeInput m)
                         (descriptionInput m) (breakingChangeInput m)
            else if commit (texts m) shortDescriptionIndex =? "" then
              mkComposer (texts m) (indexNumber shortDescriptionIndex)
                         (typeInput m) (scopeInput m)
                         (editor_SetErr (descriptionInput m) err)
                         (breakingChangeInput m)
            else m in
          Continues (m, cmd, ch)
      else if (viewing m =? indexNumber doneIndex)%Z then
        Exits 1 "4 > done"
      else
        match currentValue m, componentAt (viewing m) with
        | Returns v, Some i =>
            let m := mkComposer (setCommit (texts m) i v) (viewing m)
                                (typeInput m) (scopeInput m)
                                (descriptionInput m) (breakingChangeInput m) in
            let m := mkComposer (texts m) (viewing m + 1) (typeInput m) (scopeInput m)
                                (descriptionInput m) (breakingChangeInput m) in
            Continues (m, cmd, ch)
        | Panics p, _ => Crashes p
        | Returns _, None => Crashes (IndexOutOfRange (Z.to_nat (viewing m)) 4)
        end
  | KeyMsg (KeyOther _) => Continues (updateCurrentInput m msg, cmd, ch)
  | OtherMsg _ => Continues (m, cmd, ch)
  end.

(** The loop of the framework: the messages go to [Update] one after the
    other until it asks to quit. *)
Fixpoint feed (m : composer) (ch : chan) (msgs : list Msg)
  : effect (composer * Cmd * chan) :=
  match msgs with
  | [] => Continues (m, CmdNil, ch)
  | msg :: msgs' =>
      match Update m ch msg with
      | Continues (m', CmdNil, ch') => feed m' ch' msgs'
      | stop => stop
      end
  end.

End Composer.

(** What [main] does with the channel once the framework has returned:
    it takes the oldest string, leaves with code 1 if that is empty and
    prints the choice otherwise; on an empty channel it blocks. *)
Definition afterStart (ch : chan) : effect string :=
  match ch with
  | [] => Blocks
  | r :: _ =>
      if r =? "" then Exits 1 ""
      else Continues (nl ++ "---" ++ nl ++ "You chose `" ++ r ++ "`" ++ nl)
  end.

(** Input components that hold a fixed text and ignore what they are sent:
    stand-ins for running the composer on examples. *)
Definition fixedInputs : InputComponents := {|
  single_select := string;
  description_editor := string;
  breaking_change_input := string;
  select_Update := fun m _ => m;
  select_Value := fun m => m;
  select_View := fun m => m;
  select_SetErr := fun m _ => m;
  editor_Update := fun m _ => m;
  editor_Value := fun m => m;
  editor_View := fun m => m;
  editor_SetPrefix := fun m _ => m;
  editor_SetErr := fun m _ => m;
  breaking_Update := fun m _ => m;
  breaking_Value := fun m => m;
  breaking_View := fun m => m
|}.

(** Two ways a parser can keep to its input: what it leaves is a suffix of
    the input, and, more, its value is the text in front of that suffix. *)
Definition leavesSuffix (p : Parser) : Prop :=
  forall input r, p input = inl r -> exists pre, input = (pre ++ Remaining r)%list.

Definition valueConsumed (p : Parser) : Prop :=
  forall input r, p input = inl r -> input = (to_runes (Value r) ++ Remaining r)%list.

(** * Properties *)

Lemma length_zero_iff (s : string) : (String.length s =? 0)%nat = true <-> s = "".
Proof.
  destruct s as [|c s]; simpl; split; intro H; try reflexivity; discriminate H.
Qed.

Lemma length_pos_iff (s : string) : (0 <? String.length s)%nat = true <-> s <> "".
Proof.
  destruct s as [|c s]; simpl; split; intro H; try discriminate; try reflexivity.
  now contradiction H.
Qed.

Section ParseCCFacts.
Context {core : CombinatorCore}.

(** [ParseCC] written over the two texts it derives from its input. *)
Lemma ParseCC_eq (s : string) :
  ParseCC s =
  if (String.length (firstLineOf s) =? 0)%nat
  then Returns (zeroCC, Some (Errorf "empty commit"))
  else
    hr <- ParseHeader (to_runes (firstLineOf s)) ;;
    match snd hr with
    | Some headerErr => Panics (PanicError headerErr)
    | None =>
        if (0 <? String.length (otherLinesOf s))%nat then
          rr <- ParseRest (to_runes (otherLinesOf s)) ;;
          match snd rr with
          | Some restErr => Panics (PanicError restErr)
          | None =>
              Returns (mkCC (h_Type (fst hr)) (h_Scope (fst hr)) ""
                            (r_Body (fst rr)) (r_Footers (fst rr))
                            (h_BreakingChange (fst hr) || r_BreakingChange (fst rr)),
                       None)
          end
        else Returns (mkCC (h_Type (fst hr)) (h_Scope (fst hr)) "" "" []
                           (h_BreakingChange (fst hr)), None)
    end.
Proof.
  unfold ParseCC, firstLineOf, otherLinesOf.
  destruct (splitOutFirstLine s) as [firstLine otherLines]; reflexivity.
Qed.

(** The successful returns of [ParseCC], by the header and the rest they
    were built from. *)
Lemma ParseCC_Returns_inv (s : string) (cc : CC) :
  ParseCC s = Returns (cc, None) ->
  exists header rest,
    firstLineOf s <> "" /\
    ParseHeader (to_runes (firstLineOf s)) = Returns (header, None) /\
    (otherLinesOf s = "" /\ rest = zeroCCRest \/
     otherLinesOf s <> "" /\
     ParseRest (to_runes (otherLinesOf s)) = Returns (rest, None)) /\
    cc = mkCC (h_Type header) (h_Scope header) "" (r_Body rest) (r_Footers rest)
              (h_BreakingChange header || r_BreakingChange rest).
Proof.
  rewrite ParseCC_eq.
  destruct (String.length (firstLineOf s) =? 0)%nat eqn:Hlen; [discriminate|].
  assert (Hne : firstLineOf s <> "").
  { intro E. apply length_zero_iff in E. congruence. }
  destruct (ParseHeader (to_runes (firstLineOf s))) as [[header [e|]]|p];
    simpl; try discriminate.
  destruct (0 <? String.length (otherLinesOf s))%nat eqn:Hrest.
  - apply length_pos_iff in Hrest.
    destruct (ParseRest (to_runes (otherLinesOf s))) as [[rest [e|]]|p];
      simpl; try discriminate.
    intros [= <-]. exists header, rest. repeat split; auto.
  - assert (Hnil : otherLinesOf s = "").
    { destruct (otherLinesOf s); [reflexivity | discriminate Hrest]. }
    intros [= <-]. exists header, zeroCCRest. simpl.
    rewrite orb_false_r. repeat split; auto.
Qed.

(** The flag [ParseHeader] sets: some child of the context is tagged
    [BreakingChangeBang]. *)
Lemma headerChild_flag (children : list Result) (header : CCHeader) :
  h_BreakingChange (fold_left headerChild children header) =
  h_BreakingChange header ||
  existsb (fun child => Type_ child =? "BreakingChangeBang") children.
Proof.
  revert header. induction children as [|child children IH]; intro header; simpl.
  - now rewrite orb_false_r.
  - rewrite IH. unfold headerChild.
    destruct (Type_ child =? "BreakingChangeBang"); simpl.
    + now rewrite orb_true_r.
    + destruct (Type_ child =? "Scope"); [reflexivity|].
      destruct (Type_ child =? "CommitType"); reflexivity.
Qed.

(** The footers [ParseRest] collects and the flag it sets: some footer has a
    first child tagged [BreakingChange]. *)
Lemma restFooters_flag (children : list Result) (fb : list string * bool) :
  restFooters children = Returns fb ->
  fst fb = map Value children /\
  snd fb = existsb (fun footer =>
                      match Children footer with
                      | token :: _ => Type_ token =? "BreakingChange"
                      | [] => false
                      end) children.
Proof.
  revert fb. induction children as [|footer children IH]; intros fb H; simpl in H.
  - injection H as <-. split; reflexivity.
  - unfold index in H. destruct (Children footer) as [|token tokens] eqn:E;
      simpl in H; [discriminate H|].
    destruct (restFooters children) as [acc|p]; simpl in H; [|discriminate H].
    injection H as <-. destruct (IH acc eq_refl) as [Hf Hb]. simpl.
    rewrite E, Hf, Hb. split; reflexivity.
Qed.

End ParseCCFacts.

(** ** The parse entry point, for every combinator core *)

Section ParseCCClaims.
Context {core : CombinatorCore}.

(** C5. Whenever [ParseCC] returns without error the description of the
    record is the empty string: the type and the scope are those of the
    parsed header, whose description is not copied. *)
Theorem ParseCC_never_copies_Description (s : string) (cc : CC) :
  ParseCC s = Returns (cc, None) ->
  cc_Description cc = "" /\
  exists header,
    ParseHeader (to_runes (firstLineOf s)) = Returns (header, None) /\
    cc_Type cc = h_Type header /\ cc_Scope cc = h_Scope header.
Proof.
  intro H. apply ParseCC_Returns_inv in H.
  destruct H as (header & rest & _ & Hh & _ & ->). simpl.
  split; [reflexivity|]. exists header. auto.
Qed.

(** The empty string, and every input whose first line as
    [splitOutFirstLine] cuts it is empty, is answered with the error
    [empty commit]; no parser of the grammar takes part, so the answer is
    the same for every combinator core. *)
Theorem ParseCC_empty_first_line :
  ParseCC "" = Returns (zeroCC, Some (Errorf "empty commit")) /\
  forall s : string,
    firstLineOf s = "" ->
    ParseCC s = Returns (zeroCC, Some (Errorf "empty commit")).
Proof.
  assert (G : forall s : string, firstLineOf s = "" ->
              ParseCC s = Returns (zeroCC, Some (Errorf "empty commit"))).
  { intros s H. rewrite ParseCC_eq, H. reflexivity. }
  split; [apply G; reflexivity | exact G].
Qed.

(** C4, as the code has it.  [ParseCC] hands an error back to its caller
    only for an empty first line; a failure of [ParseHeader] (the context or
    the description separator) or of [ParseRest] (body and footers of a
    non-empty trimmed remainder) makes it panic with that failure. *)
Theorem ParseCC_outcomes (s : string) :
  (forall cc e,
      ParseCC s = Returns (cc, Some e) <->
      firstLineOf s = "" /\ cc = zeroCC /\ e = Errorf "empty commit") /\
  (forall p,
      ParseCC s = Panics p <->
      firstLineOf s <> "" /\
      (failsWith (ParseHeader (to_runes (firstLineOf s))) p \/
       (exists header,
           ParseHeader (to_runes (firstLineOf s)) = Returns (header, None)) /\
       otherLinesOf s <> "" /\
       failsWith (ParseRest (to_runes (otherLinesOf s))) p)).
Proof.
  rewrite ParseCC_eq. unfold failsWith.
  destruct (String.length (firstLineOf s) =? 0)%nat eqn:Hlen.
  - apply length_zero_iff in Hlen. split.
    + intros cc e. split.
      * intros [= <- <-]. auto.
      * intros (_ & -> & ->). reflexivity.
    + intro p. split; [discriminate|]. intros [Hne _]. contradiction.
  - assert (Hne : firstLineOf s <> "").
    { intro E. apply length_zero_iff in E. congruence. }
    destruct (ParseHeader (to_runes (firstLineOf s))) as [[header [e|]]|ph]; simpl.
    + split.
      * intros cc e'. split; [discriminate|]. intros [E _]. contradiction.
      * intro p. split.
        -- intros [= <-]. split; [assumption|]. left. right. eauto.
        -- intros [_ [[H|(a & e' & [= <- <-] & ->)]|((h & H) & _)]];
             try discriminate H; reflexivity.
    + destruct (0 <? String.length (otherLinesOf s))%nat eqn:Hrest.
      * apply length_pos_iff in Hrest.
        destruct (ParseRest (to_runes (otherLinesOf s))) as [[rest [e|]]|pr]; simpl.
        -- split.
           ++ intros cc e'. split; [discriminate|]. intros [E _]. contradiction.
           ++ intro p. split.
              ** intros [= <-]. split; [assumption|]. right.
                 split; [eauto|]. split; [assumption|]. right. eauto.
              ** intros [_ [[H|(a & e' & H & _)]|(_ & _ & [H|(a & e' & [= <- <-] & ->)])]];
                   try discriminate H; reflexivity.
        -- split.
           ++ intros cc e'. split; [discriminate|]. intros [E _]. contradiction.
           ++ intro p. split; [discriminate|].
              intros [_ [[H|(a & e' & H & _)]|(_ & _ & [H|(a & e' & H & _)])]];
                discriminate H.
        -- split.
           ++ intros cc e'. split; [discriminate|]. intros [E _]. contradiction.
           ++ intro p. split.
              ** intros [= <-]. split; [assumption|]. right.
                 split; [eauto|]. split; [assumption|]. left. reflexivity.
              ** intros [_ [[H|(a & e' & H & _)]|(_ & _ & [[= ->]|(a & e' & H & _)])]];
                   try discriminate H; reflexivity.
      * assert (Hnil : otherLinesOf s = "").
        { destruct (otherLinesOf s); [reflexivity | discriminate Hrest]. }
        split.
        -- intros cc e'. split; [discriminate|]. intros [E _]. contradiction.
        -- intro p. split; [discriminate|].
           intros [_ [[H|(a & e' & H & _)]|(_ & Hn & _)]];
             try discriminate H. contradiction.
    + split.
      * intros cc e'. split; [discriminate|]. intros [E _]. contradiction.
      * intro p. split.
        -- intros [= <-]. split; [assumption|]. left. left. reflexivity.
        -- intros [_ [[[= ->]|(a & e' & H & _)]|((h & H) & _)]];
             try discriminate H; reflexivity.
Qed.

End ParseCCClaims.

(** ** Strings *)

Lemma to_runes_app (a b : string) : to_runes (a ++ b) = (to_runes a ++ to_runes b)%list.
Proof.
  induction a as [|c a IH]; simpl; [reflexivity|]. unfold to_runes in *. simpl.
  now rewrite IH.
Qed.

Lemma of_to_runes (s : string) : of_runes (to_runes s) = s.
Proof. apply string_of_list_ascii_of_string. Qed.

Lemma HasPrefix_char (c x : rune) (s : string) :
  HasPrefix (String c s) (String x "") = Ascii.eqb x c.
Proof.
  unfold HasPrefix. simpl. destruct (ascii_dec x c) as [->|Hne].
  - rewrite Ascii.eqb_refl. now destruct s.
  - symmetry. now apply Ascii.eqb_neq.
Qed.

Lemma Contains_char_cons (c x : rune) (s : string) :
  Contains (String c s) (String x "") = Ascii.eqb x c || Contains s (String x "").
Proof.
  change (Contains (String c s) (String x ""))
    with (HasPrefix (String c s) (String x "") || Contains s (String x "")).
  now rewrite HasPrefix_char.
Qed.

Lemma Contains_char_app (a b : string) (x : rune) :
  Contains (a ++ b) (String x "") = Contains a (String x "") || Contains b (String x "").
Proof.
  induction a as [|c a IH].
  - reflexivity.
  - change (String c a ++ b) with (String c (a ++ b)).
    now rewrite !Contains_char_cons, IH, orb_assoc.
Qed.

Lemma Cut_absent (s sep : string) : Contains s sep = false -> Cut s sep = None.
Proof.
  induction s as [|c s IH]; simpl; intro H.
  - rewrite orb_false_r in H. now rewrite H.
  - apply orb_false_iff in H. destruct H as [Hp Hc]. now rewrite Hp, IH.
Qed.

Lemma Cut_cons (c : rune) (s sep : string) :
  Cut (String c s) sep =
  if HasPrefix (String c s) sep
  then Some ("", drop (String.length sep) (String c s))
  else match Cut s sep with
       | Some (before, after) => Some (String c before, after)
       | None => None
       end.
Proof. reflexivity. Qed.

Lemma Cut_char_first (before after : string) (x : rune) :
  Contains before (String x "") = false ->
  Cut (before ++ String x after) (String x "") = Some (before, after).
Proof.
  induction before as [|c before IH]; intro H.
  - simpl (_ ++ _). now rewrite Cut_cons, HasPrefix_char, Ascii.eqb_refl.
  - rewrite Contains_char_cons in H. apply orb_false_iff in H. destruct H as [Hx Hc].
    change (String c before ++ String x after) with (String c (before ++ String x after)).
    now rewrite Cut_cons, HasPrefix_char, Hx, (IH Hc).
Qed.

(** Without any ["\r\n"] in the input, and with a first ["\n"] in it, the
    first line is the text before that ["\n"] and the remainder the text
    after it. *)
Lemma splitOutFirstLine_LF (before after : string) :
  Contains (before ++ nl ++ after) crlf = false ->
  Contains before nl = false ->
  splitOutFirstLine (before ++ nl ++ after) = (before, after).
Proof.
  intros Hcrlf Hlf. unfold splitOutFirstLine.
  cbn [SplitN]. rewrite (Cut_absent _ _ Hcrlf). cbn [List.length Nat.eqb].
  change (before ++ nl ++ after) with (before ++ String LF after).
  unfold nl in *. now rewrite (Cut_char_first _ _ _ Hlf).
Qed.

(** Without any newline at all the whole input is the first line. *)
Lemma splitOutFirstLine_single (s : string) :
  Contains s crlf = false -> Contains s nl = false -> splitOutFirstLine s = (s, "").
Proof.
  intros Hcrlf Hlf. unfold splitOutFirstLine. cbn [SplitN].
  rewrite (Cut_absent _ _ Hcrlf). cbn [List.length Nat.eqb].
  now rewrite (Cut_absent _ _ Hlf).
Qed.

Lemma Cut_char_inv (s before after : string) (x : rune) :
  Cut s (String x "") = Some (before, after) ->
  s = before ++ String x after /\ Contains before (String x "") = false.
Proof.
  revert before. induction s as [|c s IH]; intros before H.
  - discriminate H.
  - rewrite Cut_cons, HasPrefix_char in H. destruct (Ascii.eqb x c) eqn:E.
    + apply Ascii.eqb_eq in E. subst c. injection H as <- <-. split; reflexivity.
    + destruct (Cut s (String x "")) as [[b a]|]; [|discriminate H].
      injection H as <- <-. destruct (IH b eq_refl) as [-> Hb].
      split; [reflexivity|]. now rewrite Contains_char_cons, E, Hb.
Qed.

(** Where [splitOutFirstLine] does split out the first line: on an input
    without ["\r\n"] the first line holds no newline, and the input is that
    line alone or that line, a ["\n"] and the remainder. *)
Lemma splitOutFirstLine_without_crlf (s : string) :
  Contains s crlf = false ->
  Contains (firstLineOf s) nl = false /\
  (Contains s nl = false /\ splitOutFirstLine s = (s, "") \/
   s = firstLineOf s ++ nl ++ snd (splitOutFirstLine s)).
Proof.
  intro Hcrlf. unfold firstLineOf, splitOutFirstLine. cbn [SplitN].
  rewrite (Cut_absent _ _ Hcrlf). cbn [List.length Nat.eqb].
  destruct (Cut s nl) as [[before after]|] eqn:E.
  - destruct (Cut_char_inv _ _ _ _ E) as [-> Hb]. cbn [fst snd].
    split; [exact Hb|]. right. reflexivity.
  - cbn [fst snd]. assert (Hlf : Contains s nl = false).
    { destruct (Contains s nl) eqn:C; [|reflexivity]. exfalso.
      clear Hcrlf. induction s as [|c s IH]; [discriminate C|].
      unfold nl in *. rewrite Cut_cons, HasPrefix_char in E.
      rewrite Contains_char_cons in C.
      destruct (Ascii.eqb LF c); [discriminate E|].
      destruct (Cut s (String LF "")) as [[b a]|]; [discriminate E|].
      now apply IH. }
    split; [exact Hlf|]. left. split; [exact Hlf | reflexivity].
Qed.

(** On an input with a ["\r\n"] the split is at the first ["\r\n"], whatever
    comes before it. *)
Lemma splitOutFirstLine_at_crlf (s before after : string) :
  Cut s crlf = Some (before, after) -> splitOutFirstLine s = (before, after).
Proof.
  intro H. unfold splitOutFirstLine. cbn [SplitN]. now rewrite H.
Qed.

(** ** The combinators of the core *)

#[local] Arguments Ascii.eqb : simpl never.

Lemma TakeUntil_eq (stop : Parser) (input : runes) :
  Core.TakeUntil stop input =
  match stop input with
  | inl _ => inl (Core.leaf "" input)
  | inr _ =>
      match input with
      | [] => inr (ParseFailure "TakeUntil" input)
      | c :: rest =>
          match Core.TakeUntil stop rest with
          | inl r => inl (Core.leaf (String c (Value r)) (Remaining r))
          | inr e => inr e
          end
      end
  end.
Proof. destruct input; reflexivity. Qed.

(** [TakeUntil] over a stop parser that only looks at the next character:
    the match ends in front of the first character that lets it succeed. *)
Lemma TakeUntil_scan (stop : Parser) (f : rune -> bool) :
  (forall c tl, f c = false -> exists e, stop (c :: tl) = inr e) ->
  forall pre rest : runes,
    forallb (fun c => negb (f c)) pre = true ->
    (exists r, stop rest = inl r) ->
    Core.TakeUntil stop (pre ++ rest)%list = inl (Core.leaf (of_runes pre) rest).
Proof.
  intros Hfail pre rest. induction pre as [|c pre IH]; intros Hpre [r Hr].
  - simpl. now rewrite TakeUntil_eq, Hr.
  - simpl in Hpre. apply andb_true_iff in Hpre. destruct Hpre as [Hc Hpre].
    apply negb_true_iff in Hc. destruct (Hfail c (pre ++ rest)%list Hc) as [e He].
    change ((c :: pre) ++ rest)%list with (c :: (pre ++ rest))%list.
    rewrite TakeUntil_eq, He, (IH Hpre (ex_intro _ r Hr)). reflexivity.
Qed.

(** ... and it fails when no character of the input, nor its end, lets the
    stop parser succeed. *)
Lemma TakeUntil_no_stop (stop : Parser) (f : rune -> bool) :
  (forall c tl, f c = false -> exists e, stop (c :: tl) = inr e) ->
  (exists e, stop [] = inr e) ->
  forall input : runes,
    forallb (fun c => negb (f c)) input = true ->
    exists e, Core.TakeUntil stop input = inr e.
Proof.
  intros Hfail [e0 H0] input. induction input as [|c input IH]; intro Hin.
  - rewrite TakeUntil_eq, H0. eauto.
  - simpl in Hin. apply andb_true_iff in Hin. destruct Hin as [Hc Hin].
    apply negb_true_iff in Hc. destruct (Hfail c input Hc) as [e He].
    destruct (IH Hin) as [e' He']. rewrite TakeUntil_eq, He, He'. eauto.
Qed.

Lemma typeStop_fails (c : rune) (tl : runes) :
  endsType c = false ->
  exists e, Any [BreakingChangeBang; Tag ":"; Tag "("] (c :: tl) = inr e.
Proof.
  unfold endsType. intro H.
  apply orb_false_iff in H. destruct H as [H Hp].
  apply orb_false_iff in H. destruct H as [Hb Hc].
  cbn. unfold Core.Marked, Core.Tag. cbn. rewrite Hb, Hc, Hp. eauto.
Qed.

Lemma typeStop_succeeds (c : rune) (tl : runes) :
  endsType c = true ->
  exists r, Any [BreakingChangeBang; Tag ":"; Tag "("] (c :: tl) = inl r.
Proof.
  unfold endsType. intro H. cbn. unfold Core.Marked, Core.Tag. cbn.
  destruct (Ascii.eqb "!" c); [eauto|].
  destruct (Ascii.eqb ":" c); [eauto|].
  destruct (Ascii.eqb "(" c); [eauto|discriminate].
Qed.

Lemma CommitType_scan (pre : runes) (c : rune) (rest : runes) :
  forallb (fun x => negb (endsType x)) pre = true ->
  endsType c = true ->
  CommitType (pre ++ c :: rest)%list =
  inl (mkResult "CommitType" (of_runes pre) [] (c :: rest)).
Proof.
  intros Hpre Hc. unfold CommitType. cbn [Marked TakeUntil specCore].
  unfold Core.Marked.
  rewrite (TakeUntil_scan _ endsType typeStop_fails pre (c :: rest) Hpre
             (typeStop_succeeds c rest Hc)).
  reflexivity.
Qed.

Lemma CommitType_no_stop (input : runes) :
  forallb (fun x => negb (endsType x)) input = true ->
  exists e, CommitType input = inr e.
Proof.
  intro Hin. unfold CommitType. cbn [Marked TakeUntil specCore]. unfold Core.Marked.
  destruct (TakeUntil_no_stop _ endsType typeStop_fails
              (ex_intro _ _ eq_refl) input Hin) as [e He].
  rewrite He. eauto.
Qed.

Lemma scopeStop_fails (c : rune) (tl : runes) :
  Ascii.eqb ")" c = false -> exists e, Tag ")" (c :: tl) = inr e.
Proof. intro H. cbn. unfold Core.Tag. cbn. rewrite H. eauto. Qed.

Lemma Scope_scan (sc rest : runes) :
  forallb (fun x => negb (Ascii.eqb ")" x)) sc = true ->
  Scope ("("%char :: sc ++ ")"%char :: rest)%list =
  inl (mkResult "Scope" (of_runes sc) [] rest).
Proof.
  intro Hsc. unfold Scope. cbn [Marked Delimeted TakeUntil Tag specCore].
  unfold Core.Marked, Core.Delimeted.
  replace (Core.Tag "(" ("("%char :: sc ++ ")"%char :: rest)%list)
    with (inl (Core.leaf "(" (sc ++ ")"%char :: rest)%list) : Result + error)
    by reflexivity.
  cbn [Remaining Core.leaf].
  rewrite (TakeUntil_scan (Core.Tag ")") (Ascii.eqb ")") scopeStop_fails
             sc (")"%char :: rest)%list Hsc (ex_intro _ _ eq_refl)).
  reflexivity.
Qed.

Lemma Scope_absent (c : rune) (rest : runes) :
  Ascii.eqb "(" c = false -> Opt Scope (c :: rest) = inl (Core.leaf "" (c :: rest)).
Proof.
  intro H. unfold Scope. cbn. unfold Core.Opt, Core.Marked, Core.Delimeted, Core.Tag.
  cbn. now rewrite H.
Qed.

Lemma Bang_absent (c : rune) (rest : runes) :
  Ascii.eqb "!" c = false ->
  Opt BreakingChangeBang (c :: rest) = inl (Core.leaf "" (c :: rest)).
Proof.
  intro H. unfold BreakingChangeBang. cbn. unfold Core.Opt, Core.Marked, Core.Tag.
  cbn. now rewrite H.
Qed.

(** The description parser takes everything up to the end of its input. *)
Lemma TakeUntil_Empty (input : runes) :
  TakeUntil Empty input = inl (Core.leaf (of_runes input) []).
Proof.
  cbn [TakeUntil Empty specCore].
  rewrite <- (app_nil_r input) at 1.
  apply (TakeUntil_scan Core.Empty (fun _ => false)).
  - intros c tl _. cbn. eauto.
  - now induction input.
  - cbn. eauto.
Qed.

Lemma description_scan (d : runes) :
  exists text,
    Sequence [ColonSep; TakeUntil Empty] (":"%char :: " "%char :: d) =
    inl (mkResult "" text [Core.leaf ": " d; Core.leaf (of_runes d) []] []).
Proof.
  cbn [Sequence specCore]. unfold Core.Sequence. cbn [Core.runAll].
  replace (ColonSep (":"%char :: " "%char :: d))
    with (inl (Core.leaf ": " d) : Result + error) by reflexivity.
  cbn [Remaining Core.leaf]. rewrite TakeUntil_Empty. cbn [Remaining Core.leaf]. eauto.
Qed.

(** The characters of a header as the serializer lays them out: the type,
    the parenthesised scope unless it is empty, the bang of a breaking
    change, the separator and the description. *)
Lemma Context_serialized (t sc d : runes) (b : bool) :
  forallb (fun x => negb (endsType x)) t = true ->
  forallb (fun x => negb (Ascii.eqb ")" x)) sc = true ->
  exists ctx,
    Context (t ++ match sc with
                  | [] => []
                  | _ :: _ => "("%char :: sc ++ [")"%char]
                  end
               ++ (if b then ["!"%char] else [])
               ++ ":"%char :: " "%char :: d)%list = inl ctx /\
    Remaining ctx = (":"%char :: " "%char :: d) /\
    fold_left headerChild (Children ctx) zeroCCHeader =
    mkCCHeader (of_runes t) (of_runes sc) "" b.
Proof.
  intros Ht Hsc. unfold Context. cbn [Sequence specCore]. unfold Core.Sequence.
  cbn [Core.runAll].
  destruct sc as [|c sc].
  - destruct b; cbn [app].
    + rewrite (CommitType_scan t "!"%char _ Ht eq_refl). cbn [Remaining].
      rewrite (Scope_absent "!"%char _ eq_refl). cbn [Remaining Core.leaf].
      eexists. split; [reflexivity|]. split; reflexivity.
    + rewrite (CommitType_scan t ":"%char _ Ht eq_refl). cbn [Remaining].
      rewrite (Scope_absent ":"%char _ eq_refl). cbn [Remaining Core.leaf].
      rewrite (Bang_absent ":"%char _ eq_refl). cbn [Remaining Core.leaf].
      eexists. split; [reflexivity|]. split; reflexivity.
  - set (scope := (c :: sc)%list) in *.
    replace (("("%char :: scope ++ [")"%char]) ++
             (if b then ["!"%char] else []) ++ ":"%char :: " "%char :: d)%list
      with ("("%char :: scope ++ ")"%char ::
            ((if b then ["!"%char] else []) ++ ":"%char :: " "%char :: d))%list
      by (cbn [app]; now rewrite <- app_assoc).
    rewrite (CommitType_scan t "("%char _ Ht eq_refl). cbn [Remaining].
    unfold Opt at 1. cbn [specCore]. unfold Core.Opt at 1.
    rewrite (Scope_scan scope _ Hsc). cbn [Remaining].
    destruct b; cbn [app].
    + eexists. split; [reflexivity|]. split; reflexivity.
    + rewrite (Bang_absent ":"%char _ eq_refl). cbn [Remaining Core.leaf].
      eexists. split; [reflexivity|]. split; reflexivity.
Qed.

Lemma ParseHeader_serialized (t sc d : runes) (b : bool) :
  forallb (fun x => negb (endsType x)) t = true ->
  forallb (fun x => negb (Ascii.eqb ")" x)) sc = true ->
  ParseHeader (t ++ match sc with
                    | [] => []
                    | _ :: _ => "("%char :: sc ++ [")"%char]
                    end
                 ++ (if b then ["!"%char] else [])
                 ++ ":"%char :: " "%char :: d)%list =
  Returns (mkCCHeader (of_runes t) (of_runes sc) (of_runes d) b, None).
Proof.
  intros Ht Hsc. unfold ParseHeader.
  destruct (Context_serialized t sc d b Ht Hsc) as (ctx & -> & -> & ->).
  destruct (description_scan d) as [text ->].
  reflexivity.
Qed.

(** ** From conditions on strings to conditions on their characters *)

Lemma append_assoc (a b c : string) : (a ++ b) ++ c = a ++ (b ++ c).
Proof. induction a as [|x a IH]; simpl; [reflexivity | now rewrite IH]. Qed.

Lemma append_nil_r (a : string) : a ++ "" = a.
Proof. induction a as [|x a IH]; simpl; [reflexivity | now rewrite IH]. Qed.

Lemma length_append (a b : string) :
  String.length (a ++ b) = String.length a + String.length b.
Proof. induction a as [|x a IH]; simpl; [reflexivity | now rewrite IH]. Qed.

Lemma to_runes_cons (c : rune) (s : string) : to_runes (String c s) = c :: to_runes s.
Proof. reflexivity. Qed.

Lemma absent_char_forallb (s : string) (x : rune) :
  Contains s (String x "") = false ->
  forallb (fun c => negb (Ascii.eqb x c)) (to_runes s) = true.
Proof.
  induction s as [|c s IH]; intro H; [reflexivity|].
  rewrite Contains_char_cons in H. apply orb_false_iff in H. destruct H as [Hx Hs].
  rewrite to_runes_cons. cbn [forallb]. now rewrite Hx, (IH Hs).
Qed.

Lemma no_type_end_forallb (t : string) :
  Contains t "!" = false -> Contains t ":" = false -> Contains t "(" = false ->
  forallb (fun c => negb (endsType c)) (to_runes t) = true.
Proof.
  induction t as [|c t IH]; intros Hb Hc Hp; [reflexivity|].
  rewrite Contains_char_cons in Hb, Hc, Hp.
  apply orb_false_iff in Hb, Hc, Hp.
  destruct Hb as [Hb Hb'], Hc as [Hc Hc'], Hp as [Hp Hp'].
  rewrite to_runes_cons. cbn [forallb]. unfold endsType at 1.
  now rewrite Hb, Hc, Hp, (IH Hb' Hc' Hp').
Qed.

(** ** The serializer *)

(** The text [value] writes: the header line, its newline, and the footer of
    a breaking change. *)
Lemma value_eq (t s d bc : string) :
  value (modelOf t s d bc) =
  (t ++ (if nonEmpty s then "(" ++ s ++ ")" else "")
     ++ (if nonEmpty bc then "!" else "") ++ ": " ++ d)
  ++ nl ++ (if nonEmpty bc then nl ++ "BREAKING CHANGE: " ++ bc ++ nl else "").
Proof.
  unfold value, contextValue. cbn [commit modelOf].
  destruct (nonEmpty s), (nonEmpty bc); unfold nl;
    repeat first [rewrite append_assoc | rewrite append_nil_r | progress cbn [append]];
    reflexivity.
Qed.

(** *** Where a ["\r\n"] can be in a concatenation *)

Lemma HasPrefix_cons (c x : rune) (s p : string) :
  HasPrefix (String c s) (String x p) = Ascii.eqb x c && HasPrefix s p.
Proof.
  unfold HasPrefix.
  change (String.prefix (String x p) (String c s))
    with (if ascii_dec x c then String.prefix p s else false).
  destruct (ascii_dec x c) as [->|Hne].
  - now rewrite Ascii.eqb_refl.
  - apply Ascii.eqb_neq in Hne. now rewrite Hne.
Qed.

Lemma Contains_crlf_cons (c : rune) (s : string) :
  Contains (String c s) crlf = (Ascii.eqb CR c && startsWithLF s) || Contains s crlf.
Proof.
  change (Contains (String c s) crlf)
    with (HasPrefix (String c s) crlf || Contains s crlf).
  f_equal. unfold crlf. rewrite HasPrefix_cons. f_equal.
  destruct s as [|x s]; [reflexivity|]. exact (HasPrefix_char x LF s).
Qed.

Lemma Contains_crlf_app (a b : string) :
  Contains (a ++ b) crlf =
  Contains a crlf || (endsWithCR a && startsWithLF b) || Contains b crlf.
Proof.
  induction a as [|c a IH]; [reflexivity|].
  change (String c a ++ b) with (String c (a ++ b)).
  rewrite !Contains_crlf_cons, IH. destruct a as [|x a].
  - cbn [append endsWithCR startsWithLF Contains HasPrefix String.prefix].
    now destruct (Ascii.eqb CR c), (startsWithLF b), (Contains b crlf).
  - change (endsWithCR (String c (String x a))) with (endsWithCR (String x a)).
    cbn [append startsWithLF].
    now destruct (Ascii.eqb CR c), (Ascii.eqb LF x), (Contains (String x a) crlf),
      (endsWithCR (String x a)), (startsWithLF b), (Contains b crlf).
Qed.

Lemma without_LF_no_crlf (s : string) : Contains s nl = false -> Contains s crlf = false.
Proof.
  unfold nl. induction s as [|c s IH]; intro H; [reflexivity|].
  rewrite Contains_char_cons in H. apply orb_false_iff in H. destruct H as [Hc Hs].
  rewrite Contains_crlf_cons, (IH Hs), orb_false_r.
  destruct s as [|x s]; [apply andb_false_r|].
  rewrite Contains_char_cons in Hs. apply orb_false_iff in Hs.
  cbn [startsWithLF]. rewrite (proj1 Hs). apply andb_false_r.
Qed.

Lemma without_CR_no_crlf (s : string) :
  Contains s (String CR "") = false -> Contains s crlf = false /\ endsWithCR s = false.
Proof.
  induction s as [|c s IH]; intro H; [split; reflexivity|].
  rewrite Contains_char_cons in H. apply orb_false_iff in H. destruct H as [Hc Hs].
  destruct (IH Hs) as [Hin Hend]. rewrite Contains_crlf_cons, Hc, Hin.
  split; [reflexivity|]. destruct s; [exact Hc | exact Hend].
Qed.

(** X17. A type and a scope without newline, a description and a
    breaking-change text without carriage return: [value] then writes no
    ["\r\n"]. *)
Lemma value_without_crlf (t s d bc : string) :
  Contains t nl = false -> Contains s nl = false ->
  Contains d (String CR "") = false -> Contains bc (String CR "") = false ->
  Contains (value (modelOf t s d bc)) crlf = false.
Proof.
  intros Ht Hs Hd Hbc. rewrite value_eq.
  apply without_LF_no_crlf in Ht, Hs.
  destruct (without_CR_no_crlf d Hd) as [Hd1 Hd2].
  destruct (without_CR_no_crlf bc Hbc) as [Hb1 Hb2].
  assert (Htail : forall rest, Contains rest crlf = false -> startsWithLF rest = false ->
                  Contains (t ++ rest) crlf = false).
  { intros rest H1 H2. now rewrite Contains_crlf_app, Ht, H1, H2, andb_false_r. }
  assert (Hfoot : Contains (d ++ nl ++ (if nonEmpty bc
                    then nl ++ "BREAKING CHANGE: " ++ bc ++ nl else "")) crlf = false).
  { rewrite Contains_crlf_app, Hd1, Hd2. cbn [andb orb].
    destruct (nonEmpty bc); [|reflexivity].
    change (nl ++ nl ++ "BREAKING CHANGE: " ++ bc ++ nl)
      with ((nl ++ nl ++ "BREAKING CHANGE: ") ++ bc ++ nl).
    rewrite (Contains_crlf_app (nl ++ nl ++ "BREAKING CHANGE: ") (bc ++ nl)),
      (Contains_crlf_app bc nl), Hb1, Hb2.
    reflexivity. }
  repeat first [rewrite append_assoc | progress cbn [append]].
  destruct (nonEmpty s), (nonEmpty bc) eqn:E; cbn [append] in *.
  - apply Htail; [|reflexivity]. rewrite Contains_crlf_cons. cbn [andb orb].
    rewrite append_assoc. rewrite Contains_crlf_app, Hs. cbn [append startsWithLF].
    rewrite andb_false_r. cbn [orb].
    rewrite !Contains_crlf_cons. cbn [andb orb startsWithLF].
    rewrite Hfoot. reflexivity.
  - apply Htail; [|reflexivity]. rewrite Contains_crlf_cons. cbn [andb orb].
    rewrite append_assoc. rewrite Contains_crlf_app, Hs. cbn [append startsWithLF].
    rewrite andb_false_r. cbn [orb].
    rewrite !Contains_crlf_cons. cbn [andb orb startsWithLF].
    rewrite Hfoot. reflexivity.
  - apply Htail; [|reflexivity].
    rewrite !Contains_crlf_cons. cbn [andb orb startsWithLF].
    rewrite Hfoot. reflexivity.
  - apply Htail; [|reflexivity].
    rewrite !Contains_crlf_cons. cbn [andb orb startsWithLF].
    rewrite Hfoot. reflexivity.
Qed.

Lemma headerLine_no_newline (t s d : string) (b : bool) :
  Contains t nl = false -> Contains s nl = false -> Contains d nl = false ->
  Contains (t ++ (if nonEmpty s then "(" ++ s ++ ")" else "")
              ++ (if b then "!" else "") ++ ": " ++ d) nl = false.
Proof.
  unfold nl. intros Ht Hs Hd.
  rewrite !Contains_char_app, Ht, Hd.
  destruct (nonEmpty s), b; rewrite ?Contains_char_app, ?Hs; reflexivity.
Qed.

Lemma headerLine_runes (t s d : string) (b : bool) :
  to_runes (t ++ (if nonEmpty s then "(" ++ s ++ ")" else "")
              ++ (if b then "!" else "") ++ ": " ++ d) =
  (to_runes t ++ match to_runes s with
                 | [] => []
                 | _ :: _ => "("%char :: to_runes s ++ [")"%char]
                 end
              ++ (if b then ["!"%char] else [])
              ++ ":"%char :: " "%char :: to_runes d)%list.
Proof.
  rewrite !to_runes_app. f_equal. f_equal; [|now destruct b].
  destruct s as [|c s]; [reflexivity|].
  cbn [nonEmpty String.eqb negb]. now rewrite !to_runes_app.
Qed.

(** C1, as the code has it.  A header written by [value] and cut out again
    by [splitOutFirstLine] is parsed back by [ParseHeader] to the type, the
    scope, the description and the breaking-change flag it was written
    from, when in addition to the conditions the specification names neither the
    type nor the scope holds a newline and the written text holds no ["\r\n"]. *)
Theorem header_round_trip (t s d bc : string) :
  Contains t "!" = false -> Contains t ":" = false -> Contains t "(" = false ->
  Contains s ")" = false ->
  Contains d nl = false ->
  Contains t nl = false -> Contains s nl = false ->
  Contains (value (modelOf t s d bc)) crlf = false ->
  ParseHeader (to_runes (firstLineOf (value (modelOf t s d bc)))) =
  Returns (mkCCHeader t s d (nonEmpty bc), None).
Proof.
  intros Hbang Hcolon Hparen Hclose Hd Ht Hs Hcrlf.
  unfold firstLineOf. rewrite value_eq in *.
  rewrite (splitOutFirstLine_LF _ _ Hcrlf
             (headerLine_no_newline t s d (nonEmpty bc) Ht Hs Hd)).
  cbn [fst]. rewrite headerLine_runes.
  rewrite (ParseHeader_serialized _ _ _ _
             (no_type_end_forallb t Hbang Hcolon Hparen)
             (absent_char_forallb s ")"%char Hclose)).
  now rewrite !of_to_runes.
Qed.

Lemma HasPrefix_app_inv (a b c : string) :
  HasPrefix (a ++ b) (a ++ c) = HasPrefix b c.
Proof.
  unfold HasPrefix. induction a as [|x a IH]; simpl; [reflexivity|].
  destruct (ascii_dec x x) as [_|Hne]; [exact IH | now contradiction Hne].
Qed.

Lemma nonEmpty_true_iff (s : string) : nonEmpty s = true <-> s <> "".
Proof.
  unfold nonEmpty. rewrite negb_true_iff. apply String.eqb_neq.
Qed.

Lemma nonEmpty_false_iff (s : string) : nonEmpty s = false <-> s = "".
Proof.
  unfold nonEmpty. rewrite negb_false_iff. apply String.eqb_eq.
Qed.

(** [value] over what [contextValue] wrote. *)
Lemma value_over_context (m : model) :
  value m =
  contextValue m
  ++ (if nonEmpty (commit m breakingChangeIndex) then "!" else "")
  ++ ": " ++ commit m shortDescriptionIndex ++ nl
  ++ (if nonEmpty (commit m breakingChangeIndex)
      then nl ++ "BREAKING CHANGE: " ++ commit m breakingChangeIndex ++ nl
      else "").
Proof.
  unfold value. cbn [append].
  destruct (nonEmpty (commit m breakingChangeIndex)); unfold nl;
    repeat first [rewrite append_assoc | rewrite append_nil_r | progress cbn [append]];
    reflexivity.
Qed.

(** C10. The bang and the breaking-change footer come together: the text
    [value] writes has ['!'] right after the type and scope exactly when the
    header line is followed by a blank line and the footer
    [BREAKING CHANGE: ...], and each of the two is there exactly when the
    breaking-change text of the model is not empty. *)
Theorem value_bang_iff_footer (m : model) :
  (bangWritten m <-> footerWritten m) /\
  (bangWritten m <-> commit m breakingChangeIndex <> "") /\
  (footerWritten m <-> commit m breakingChangeIndex <> "").
Proof.
  assert (Hbang : bangWritten m <-> commit m breakingChangeIndex <> "").
  { unfold bangWritten. rewrite value_over_context, HasPrefix_app_inv.
    destruct (nonEmpty (commit m breakingChangeIndex)) eqn:E.
    - apply nonEmpty_true_iff in E. split; [auto|]. intros _. reflexivity.
    - apply nonEmpty_false_iff in E. split; [discriminate | contradiction]. }
  assert (Hfooter : footerWritten m <-> commit m breakingChangeIndex <> "").
  { unfold footerWritten. rewrite value_over_context.
    destruct (nonEmpty (commit m breakingChangeIndex)) eqn:E.
    - apply nonEmpty_true_iff in E. split; [auto|]. intros _. exists "!". reflexivity.
    - apply nonEmpty_false_iff in E. split; [|contradiction].
      intros [mark H]. apply (f_equal String.length) in H.
      rewrite !length_append in H. simpl in H. lia. }
  split; [|split]; tauto.
Qed.

(** ** The grammar on concrete and on symbolic input *)

(** C7. [CommitType] takes the text in front of the first ['!'], [':'] or
    ['('] and leaves that character in the remaining input. *)
Theorem CommitType_stops_before_delimiter (t : string) (c : rune) (rest : string) :
  Contains t "!" = false -> Contains t ":" = false -> Contains t "(" = false ->
  In c ["!"%char; ":"%char; "("%char] ->
  CommitType (to_runes (t ++ String c rest)) =
  inl (mkResult "CommitType" t [] (to_runes (String c rest))).
Proof.
  intros Hbang Hcolon Hparen Hc.
  rewrite to_runes_app, to_runes_cons.
  rewrite (CommitType_scan (to_runes t) c (to_runes rest)
             (no_type_end_forallb t Hbang Hcolon Hparen)).
  - now rewrite of_to_runes.
  - destruct Hc as [<-|[<-|[<-|[]]]]; reflexivity.
Qed.

(** C8. The scope is optional: without a parenthesised group the header
    parses with an empty scope, with one the scope is the text between the
    parentheses. *)
Theorem ParseHeader_scope_optional :
  ParseHeader (to_runes "fix: bug") =
    Returns (mkCCHeader "fix" "" "bug" false, None) /\
  ParseHeader (to_runes "fix(core): bug") =
    Returns (mkCCHeader "fix" "core" "bug" false, None).
Proof. split; vm_compute; reflexivity. Qed.

(** C2, on the code.  For the scenario of the specification [ParseCC]
    returns type, scope, flag, body and footers as stated, but an empty
    description, although [ParseHeader] found the description in the first
    line. *)
Theorem ParseCC_scenario :
  ParseCC scenario =
    Returns (mkCC "feat" "parser" "" "" ["BREAKING CHANGE: old API removed"] true,
             None) /\
  ParseHeader (to_runes (firstLineOf scenario)) =
    Returns (mkCCHeader "feat" "parser" "support scopes" true, None).
Proof. split; vm_compute; reflexivity. Qed.

(** C6, on the code.  ["\r\n"] is looked for in the whole input before
    ["\n"] is: when a ["\n"] comes before the first ["\r\n"], the first line
    handed on is not the text in front of the first newline, and it holds a
    newline. *)
Theorem splitOutFirstLine_mixed_line_endings :
  splitOutFirstLine mixedEndings = ("a" ++ nl ++ "b", "c") /\
  Contains (firstLineOf mixedEndings) nl = true /\
  Cut mixedEndings nl = Some ("a", "b" ++ crlf ++ "c").
Proof. repeat split; vm_compute; reflexivity. Qed.

(** C9, on the code.  The empty string is answered with the error
    [empty commit], for every combinator core.  An input whose first line is
    empty is not always: when a ["\r\n"] comes after the leading ["\n"],
    [splitOutFirstLine] cuts at the ["\r\n"], the first line handed on is
    not empty, and [ParseCC] returns a record and no error, whatever the
    combinator core, a record with a type that starts with a newline for the
    core of the specification. *)
Theorem ParseCC_blank_first_line_accepted :
  (forall core : CombinatorCore,
      ParseCC "" = Returns (zeroCC, Some (Errorf "empty commit"))) /\
  Cut blankFirstLine nl = Some ("", "fix!: x" ++ crlf) /\
  splitOutFirstLine blankFirstLine = (nl ++ "fix!: x", "") /\
  (forall core : CombinatorCore,
      ParseCC blankFirstLine <> Returns (zeroCC, Some (Errorf "empty commit"))) /\
  ParseCC blankFirstLine = Returns (mkCC (nl ++ "fix") "" "" "" [] true, None).
Proof.
  split; [intro core; reflexivity|].
  split; [reflexivity|]. split; [reflexivity|]. split.
  - intro core. rewrite ParseCC_eq.
    change (String.length (firstLineOf blankFirstLine) =? 0)%nat with false.
    change (0 <? String.length (otherLinesOf blankFirstLine))%nat with false.
    destruct (ParseHeader (to_runes (firstLineOf blankFirstLine)))
      as [[header [e|]]|p]; cbn [bind fst snd]; discriminate.
  - vm_compute. reflexivity.
Qed.

(** C3. The flag of the record [ParseCC] returns is the disjunction of the
    flag of the header and the flag of the rest (the zero value when there
    is no text after the first line), for every combinator core; with the
    core of the specification, a footer [BREAKING CHANGE: ...] under a
    header without bang sets it, and so does a bang without any footer. *)
Theorem ParseCC_BreakingChange_union :
  (forall (core : CombinatorCore) (s : string) (cc : CC),
      ParseCC s = Returns (cc, None) ->
      exists header rest,
        ParseHeader (to_runes (firstLineOf s)) = Returns (header, None) /\
        (otherLinesOf s = "" /\ rest = zeroCCRest \/
         otherLinesOf s <> "" /\
         ParseRest (to_runes (otherLinesOf s)) = Returns (rest, None)) /\
        cc_BreakingChange cc = h_BreakingChange header || r_BreakingChange rest) /\
  (ParseHeader (to_runes (firstLineOf footerOnly)) =
     Returns (mkCCHeader "fix" "" "thing" false, None) /\
   ParseRest (to_runes (otherLinesOf footerOnly)) =
     Returns (mkCCRest "" ["BREAKING CHANGE: removes X"] true, None) /\
   ParseCC footerOnly =
     Returns (mkCC "fix" "" "" "" ["BREAKING CHANGE: removes X"] true, None)) /\
  (ParseHeader (to_runes (firstLineOf "fix!: thing")) =
     Returns (mkCCHeader "fix" "" "thing" true, None) /\
   otherLinesOf "fix!: thing" = "" /\
   ParseCC "fix!: thing" = Returns (mkCC "fix" "" "" "" [] true, None)).
Proof.
  split; [|split].
  - intros core s cc H. apply ParseCC_Returns_inv in H.
    destruct H as (header & rest & _ & Hh & Hr & ->).
    exists header, rest. auto.
  - repeat split; vm_compute; reflexivity.
  - repeat split; vm_compute; reflexivity.
Qed.

(** ** No run-time panic with the core of the specification *)

Lemma runAll_two (p q : Parser) (input : runes) (rs : list Result) (rest : runes) :
  Core.runAll [p; q] input = inl (rs, rest) ->
  exists r1 r2, rs = [r1; r2] /\ q (Remaining r1) = inl r2.
Proof.
  cbn [Core.runAll]. destruct (p input) as [r1|e]; [|discriminate].
  destruct (q (Remaining r1)) as [r2|e] eqn:E; [|discriminate].
  intros [= <- <-]. exists r1, r2. split; [reflexivity | exact E].
Qed.

Lemma Sequence_two (p q : Parser) (input : runes) (r : Result) :
  Core.Sequence [p; q] input = inl r ->
  exists r1 r2, Children r = [r1; r2] /\ q (Remaining r1) = inl r2.
Proof.
  unfold Core.Sequence. destruct (Core.runAll [p; q] input) as [[rs rest]|e] eqn:E;
    [|discriminate].
  intros [= <-]. exact (runAll_two p q input rs rest E).
Qed.

Lemma repeat0_Forall (P : Result -> Prop) (p : Parser) :
  (forall input r, p input = inl r -> P r) ->
  forall fuel input, Forall P (fst (Core.repeat0 p fuel input)).
Proof.
  intros Hp fuel. induction fuel as [|fuel IH]; intro input; cbn [Core.repeat0].
  - constructor.
  - destruct (p input) as [r|e] eqn:E; [|constructor].
    specialize (IH (Remaining r)).
    destruct (Core.repeat0 p fuel (Remaining r)) as [rs rest].
    constructor; [exact (Hp input r E) | exact IH].
Qed.

Lemma restFooters_returns (children : list Result) :
  Forall (fun footer => Children footer <> []) children ->
  exists fb, restFooters children = Returns fb.
Proof.
  induction 1 as [|footer children Hf _ IH]; cbn [restFooters]; [eauto|].
  destruct (Children footer) as [|token tokens]; [contradiction|].
  destruct IH as [fb ->]. cbn. eauto.
Qed.

Lemma Footer_children (input : runes) (r : Result) :
  Footer input = inl r -> Children r <> [].
Proof.
  intro H. destruct (Sequence_two _ _ _ _ H) as (r1 & r2 & -> & _). discriminate.
Qed.

(** [ParseHeader] and [ParseRest] index the children of a [Sequence] of two
    parsers, and of footers that are such sequences: they always return. *)
Lemma ParseHeader_returns (head : runes) :
  exists header err, ParseHeader head = Returns (header, err).
Proof.
  unfold ParseHeader. destruct (Context head) as [ctx|e]; [|eauto].
  destruct (Sequence [ColonSep; TakeUntil Empty] (Remaining ctx)) as [desc|e] eqn:E;
    [|eauto].
  destruct (Sequence_two _ _ _ _ E) as (r1 & r2 & -> & _). cbn. eauto.
Qed.

Lemma ParseRest_returns (input : runes) :
  exists rest err, ParseRest input = Returns (rest, err).
Proof.
  unfold ParseRest. destruct (Body input) as [body|e] eqn:E; [|eauto].
  destruct (Sequence_two _ _ _ _ E) as (r1 & r2 & -> & _). cbn [index nth_error bind].
  destruct (Footers (Remaining body)) as [fs|e] eqn:F; [|eauto].
  assert (Hfs : Forall (fun footer => Children footer <> []) (Children fs)).
  { unfold Footers in F. cbn [Many0 specCore] in F. unfold Core.Many0 in F.
    pose proof (repeat0_Forall _ Footer Footer_children
                  (S (List.length (Remaining body))) (Remaining body)) as H.
    destruct (Core.repeat0 Footer (S (List.length (Remaining body))) (Remaining body))
      as [rs rest].
    injection F as <-. exact H. }
  destruct (restFooters_returns _ Hfs) as [fb ->]. cbn. eauto.
Qed.

(** X16. With that core the indexings [desc.Children[1]],
    [result.Children[1]] and [footer.Children[0]] are always in range: a
    panic of [ParseCC] is always one of its two calls of [panic] on an
    error of the grammar. *)
Lemma ParseCC_panic_is_error (s : string) (p : panic_value) :
  ParseCC s = Panics p -> exists e, p = PanicError e.
Proof.
  rewrite ParseCC_eq.
  destruct (String.length (firstLineOf s) =? 0)%nat; [discriminate|].
  destruct (ParseHeader_returns (to_runes (firstLineOf s))) as (header & herr & ->).
  cbn [bind fst snd]. destruct herr as [e|]; [intros [= <-]; eauto|].
  destruct (0 <? String.length (otherLinesOf s))%nat; [|discriminate].
  destruct (ParseRest_returns (to_runes (otherLinesOf s))) as (rest & rerr & ->).
  cbn [bind fst snd]. destruct rerr as [e|]; [intros [= <-]; eauto | discriminate].
Qed.

(** ** Instances *)

Lemma header_round_trip_witness :
  (Contains "feat" "!" = false /\ Contains "feat" ":" = false /\
   Contains "feat" "(" = false /\ Contains "parser" ")" = false /\
   Contains "support scopes" nl = false /\ Contains "feat" nl = false /\
   Contains "parser" nl = false /\
   Contains (value (modelOf "feat" "parser" "support scopes" "old API removed"))
            crlf = false) /\
  ParseHeader
    (to_runes (firstLineOf
       (value (modelOf "feat" "parser" "support scopes" "old API removed")))) =
  Returns (mkCCHeader "feat" "parser" "support scopes" true, None).
Proof.
  split.
  - repeat split; reflexivity.
  - exact (header_round_trip "feat" "parser" "support scopes" "old API removed"
             eq_refl eq_refl eq_refl eq_refl eq_refl eq_refl eq_refl eq_refl).
Defined.

(** The round trip of C1 without the added conditions: a type that holds a
    newline meets every condition the specification names, and the first line of the
    written text is then only the start of the type. *)
Lemma header_round_trip_newline_in_type :
  (Contains ("a" ++ nl ++ "b") "!" = false /\
   Contains ("a" ++ nl ++ "b") ":" = false /\
   Contains ("a" ++ nl ++ "b") "(" = false /\
   Contains "" ")" = false /\
   Contains "x" nl = false) /\
  firstLineOf (value (modelOf ("a" ++ nl ++ "b") "" "x" "")) = "a" /\
  ParseHeader (to_runes (firstLineOf (value (modelOf ("a" ++ nl ++ "b") "" "x" "")))) <>
  Returns (mkCCHeader ("a" ++ nl ++ "b") "" "x" false, None).
Proof.
  split; [repeat split; reflexivity|].
  split; [reflexivity|]. vm_compute. discriminate.
Qed.

(** The same for a newline in the scope, for a description that ends with a
    carriage return, and for a ["\r\n"] in the breaking-change text. *)
Lemma header_round_trip_newline_in_scope :
  Contains ("p" ++ nl ++ "q") ")" = false /\
  ParseHeader (to_runes (firstLineOf (value (modelOf "a" ("p" ++ nl ++ "q") "x" "")))) <>
  Returns (mkCCHeader "a" ("p" ++ nl ++ "q") "x" false, None).
Proof. split; [reflexivity|]. vm_compute. discriminate. Qed.

Lemma header_round_trip_description_cr :
  Contains ("x" ++ String CR "") nl = false /\
  ParseHeader
    (to_runes (firstLineOf (value (modelOf "a" "" ("x" ++ String CR "") "")))) =
  Returns (mkCCHeader "a" "" "x" false, None).
Proof. split; vm_compute; reflexivity. Qed.

Lemma header_round_trip_crlf_in_footer :
  ParseHeader
    (to_runes (firstLineOf (value (modelOf "a" "" "x" ("u" ++ crlf ++ "v"))))) =
  Returns (mkCCHeader "a" "" ("x" ++ nl ++ nl ++ "BREAKING CHANGE: u") true, None).
Proof. vm_compute. reflexivity. Qed.

(** C4 does not hold as the specification words it: a first line without any of ['!'], [':'],
    ['('], a header without the separator [": "], and a second line that is
    not blank each make [ParseCC] panic. *)
Lemma ParseCC_panics :
  ParseCC "foo" = Panics (PanicError (ParseFailure "TakeUntil" [])) /\
  ParseCC "feat:x" = Panics (PanicError (ParseFailure "Tag" (to_runes ":x"))) /\
  ParseCC ("fix: a" ++ nl ++ "body") =
    Panics (PanicError (ParseFailure "Any" (to_runes "body"))).
Proof. repeat split; vm_compute; reflexivity. Qed.

Lemma ParseCC_outcomes_witness :
  firstLineOf "foo" <> "" /\
  failsWith (ParseHeader (to_runes (firstLineOf "foo")))
            (PanicError (ParseFailure "TakeUntil" [])) /\
  ParseCC "foo" = Panics (PanicError (ParseFailure "TakeUntil" [])).
Proof.
  assert (Hne : firstLineOf "foo" <> "") by discriminate.
  assert (Hf : failsWith (ParseHeader (to_runes (firstLineOf "foo")))
                         (PanicError (ParseFailure "TakeUntil" []))).
  { right. exists zeroCCHeader, (ParseFailure "TakeUntil" []). split; reflexivity. }
  split; [exact Hne|]. split; [exact Hf|].
  apply (proj2 (@ParseCC_outcomes specCore "foo")).
  split; [exact Hne|]. left. exact Hf.
Defined.

Lemma ParseCC_never_copies_Description_witness :
  ParseCC scenario =
    Returns (mkCC "feat" "parser" "" "" ["BREAKING CHANGE: old API removed"] true,
             None) /\
  cc_Description
    (mkCC "feat" "parser" "" "" ["BREAKING CHANGE: old API removed"] true) = "" /\
  exists header,
    ParseHeader (to_runes (firstLineOf scenario)) = Returns (header, None) /\
    "feat" = h_Type header /\ "parser" = h_Scope header.
Proof.
  split; [vm_compute; reflexivity|].
  apply (@ParseCC_never_copies_Description specCore scenario
           (mkCC "feat" "parser" "" "" ["BREAKING CHANGE: old API removed"] true)).
  vm_compute. reflexivity.
Defined.

Lemma ParseCC_empty_first_line_witness :
  firstLineOf (nl ++ "fix: late header") = "" /\
  ParseCC (nl ++ "fix: late header") = Returns (zeroCC, Some (Errorf "empty commit")).
Proof.
  split; [reflexivity|].
  apply (proj2 (@ParseCC_empty_first_line specCore)). reflexivity.
Defined.

Lemma ParseCC_BreakingChange_union_witness :
  ParseCC footerOnly =
    Returns (mkCC "fix" "" "" "" ["BREAKING CHANGE: removes X"] true, None) /\
  exists header rest,
    ParseHeader (to_runes (firstLineOf footerOnly)) = Returns (header, None) /\
    (otherLinesOf footerOnly = "" /\ rest = zeroCCRest \/
     otherLinesOf footerOnly <> "" /\
     ParseRest (to_runes (otherLinesOf footerOnly)) = Returns (rest, None)) /\
    true = h_BreakingChange header || r_BreakingChange rest.
Proof.
  split; [vm_compute; reflexivity|].
  apply (proj1 ParseCC_BreakingChange_union specCore footerOnly
           (mkCC "fix" "" "" "" ["BREAKING CHANGE: removes X"] true)).
  vm_compute. reflexivity.
Defined.

Lemma CommitType_stops_before_delimiter_witness :
  CommitType (to_runes "feat(parser): x") =
    inl (mkResult "CommitType" "feat" [] (to_runes "(parser): x")) /\
  CommitType (to_runes "feat!: x") =
    inl (mkResult "CommitType" "feat" [] (to_runes "!: x")).
Proof.
  split.
  - exact (CommitType_stops_before_delimiter "feat" "("%char "parser): x"
             eq_refl eq_refl eq_refl (or_intror (or_intror (or_introl eq_refl)))).
  - exact (CommitType_stops_before_delimiter "feat" "!"%char ": x"
             eq_refl eq_refl eq_refl (or_introl eq_refl)).
Defined.

Lemma value_bang_iff_footer_witness :
  commit (modelOf "feat" "parser" "support scopes" "old API removed")
         breakingChangeIndex <> "" /\
  bangWritten (modelOf "feat" "parser" "support scopes" "old API removed") /\
  footerWritten (modelOf "feat" "parser" "support scopes" "old API removed").
Proof.
  assert (Hne : commit (modelOf "feat" "parser" "support scopes" "old API removed")
                       breakingChangeIndex <> "") by discriminate.
  split; [exact Hne|]. split.
  - exact (proj2 (proj1 (proj2 (value_bang_iff_footer _))) Hne).
  - exact (proj2 (proj2 (proj2 (value_bang_iff_footer _))) Hne).
Defined.

(** * Further properties of the code *)

(** ** [splitOutFirstLine] *)


Lemma HasPrefix_drop (sep s : string) :
  HasPrefix s sep = true -> s = sep ++ drop (String.length sep) s.
Proof.
  revert s. induction sep as [|x sep IH]; intros s H; [reflexivity|].
  destruct s as [|c s]; [discriminate H|].
  rewrite HasPrefix_cons in H. apply andb_true_iff in H. destruct H as [Hx Hs].
  apply Ascii.eqb_eq in Hx. subst c. simpl. f_equal. exact (IH s Hs).
Qed.

Lemma Cut_nil (sep : string) :
  Cut "" sep = if HasPrefix "" sep then Some ("", drop (String.length sep) "") else None.
Proof. reflexivity. Qed.

(** [Cut] splits at an occurrence of the separator ... *)
Lemma Cut_Some_inv (s sep before after : string) :
  Cut s sep = Some (before, after) -> s = before ++ sep ++ after.
Proof.
  revert before. induction s as [|c s IH]; intros before H.
  - rewrite Cut_nil in H. destruct (HasPrefix "" sep) eqn:E; [|discriminate H].
    injection H as <- <-. exact (HasPrefix_drop sep "" E).
  - rewrite Cut_cons in H. destruct (HasPrefix (String c s) sep) eqn:E.
    + injection H as <- <-. exact (HasPrefix_drop sep _ E).
    + destruct (Cut s sep) as [[b a]|]; [|discriminate H].
      injection H as <- <-. simpl. f_equal. exact (IH b eq_refl).
Qed.

Lemma Cut_None_absent (s sep : string) : Cut s sep = None -> Contains s sep = false.
Proof.
  induction s as [|c s IH]; intro H.
  - rewrite Cut_nil in H.
    change (Contains "" sep) with (HasPrefix "" sep || false).
    destruct (HasPrefix "" sep); [discriminate H | reflexivity].
  - rewrite Cut_cons in H.
    change (Contains (String c s) sep)
      with (HasPrefix (String c s) sep || Contains s sep).
    destruct (HasPrefix (String c s) sep); [discriminate H|].
    destruct (Cut s sep) as [[b a]|]; [discriminate H|]. exact (IH eq_refl).
Qed.

Lemma Cut_Some_Contains (s sep before after : string) :
  Cut s sep = Some (before, after) -> Contains s sep = true.
Proof.
  intro H. destruct (Contains s sep) eqn:E; [reflexivity|].
  rewrite (Cut_absent s sep E) in H. discriminate H.
Qed.

Lemma startsWithLF_app (a b : string) :
  a <> "" -> startsWithLF (a ++ b) = startsWithLF a.
Proof. destruct a; [contradiction | reflexivity]. Qed.

(** ... and for ["\r\n"] at the first one: the text in front holds none. *)
Lemma Cut_crlf_first (s before after : string) :
  Cut s crlf = Some (before, after) -> Contains before crlf = false.
Proof.
  revert before. induction s as [|c s IH]; intros before H; [discriminate H|].
  rewrite Cut_cons in H. destruct (HasPrefix (String c s) crlf) eqn:E.
  - injection H as <- <-. reflexivity.
  - destruct (Cut s crlf) as [[b a]|] eqn:C; [|discriminate H].
    injection H as <- <-. rewrite Contains_crlf_cons, (IH b eq_refl), orb_false_r.
    destruct b as [|x b]; [apply andb_false_r|].
    apply Cut_Some_inv in C. subst s.
    unfold crlf in E. rewrite HasPrefix_cons in E.
    rewrite <- E. f_equal. symmetry.
    exact (HasPrefix_char x LF (b ++ String CR (String LF "") ++ a)).
Qed.

(** X1. [splitOutFirstLine] takes one line separator out of its input and
    nothing else: the input is the first line, the separator and the
    remainder.  The separator is the first ["\r\n"] if there is one, else
    the first ["\n"], else there is none and the remainder is empty. *)
Theorem splitOutFirstLine_partition (s : string) :
  (Contains s crlf = true /\
   s = firstLineOf s ++ crlf ++ snd (splitOutFirstLine s) /\
   Contains (firstLineOf s) crlf = false) \/
  (Contains s crlf = false /\ Contains s nl = true /\
   s = firstLineOf s ++ nl ++ snd (splitOutFirstLine s) /\
   Contains (firstLineOf s) nl = false) \/
  (Contains s crlf = false /\ Contains s nl = false /\
   splitOutFirstLine s = (s, "")).
Proof.
  unfold firstLineOf, splitOutFirstLine. cbn [SplitN].
  destruct (Cut s crlf) as [[before after]|] eqn:C.
  - left. cbn [List.length Nat.eqb fst snd].
    split; [exact (Cut_Some_Contains _ _ _ _ C)|].
    split; [exact (Cut_Some_inv _ _ _ _ C) | exact (Cut_crlf_first _ _ _ C)].
  - right. cbn [List.length Nat.eqb].
    pose proof (Cut_None_absent _ _ C) as Hcrlf.
    destruct (Cut s nl) as [[before after]|] eqn:L.
    + left. cbn [fst snd]. split; [exact Hcrlf|].
      split; [exact (Cut_Some_Contains _ _ _ _ L)|].
      destruct (Cut_char_inv _ _ _ _ L) as [Hs Hb]. split; [exact Hs | exact Hb].
    + right. split; [exact Hcrlf|]. split; [|reflexivity].
      exact (Cut_None_absent _ _ L).
Qed.

Lemma Cut_at_prefix (s sep : string) :
  HasPrefix s sep = true -> Cut s sep = Some ("", drop (String.length sep) s).
Proof.
  intro H. destruct s as [|c s].
  - rewrite Cut_nil. now rewrite H.
  - rewrite Cut_cons. now rewrite H.
Qed.

Lemma Cut_empty_before (s sep after : string) :
  Cut s sep = Some ("", after) -> HasPrefix s sep = true.
Proof.
  destruct s as [|c s].
  - rewrite Cut_nil. now destruct (HasPrefix "" sep).
  - rewrite Cut_cons. destruct (HasPrefix (String c s) sep); [reflexivity|].
    destruct (Cut s sep) as [[b a]|]; discriminate.
Qed.

(** The inputs whose first line is empty. *)
Lemma firstLineOf_empty_iff (s : string) :
  firstLineOf s = "" <->
  s = "" \/ HasPrefix s crlf = true \/
  (Contains s crlf = false /\ HasPrefix s nl = true).
Proof.
  unfold firstLineOf, splitOutFirstLine. cbn [SplitN]. split.
  - destruct (Cut s crlf) as [[before after]|] eqn:C; cbn [List.length Nat.eqb fst].
    + intros ->. right. left. exact (Cut_empty_before _ _ _ C).
    + pose proof (Cut_None_absent _ _ C) as Hcrlf.
      destruct (Cut s nl) as [[before after]|] eqn:L; cbn [fst].
      * intros ->. right. right. split; [exact Hcrlf | exact (Cut_empty_before _ _ _ L)].
      * intros ->. left. reflexivity.
  - intros [->|[H|[Hcrlf H]]].
    + reflexivity.
    + now rewrite (Cut_at_prefix _ _ H).
    + rewrite (Cut_absent _ _ Hcrlf). cbn [List.length Nat.eqb].
      now rewrite (Cut_at_prefix _ _ H).
Qed.

(** ** [ParseCC], [ParseHeader] and [ParseRest], for every combinator core *)

Section ParserFacts.
Context {core : CombinatorCore}.

(** X2. The inputs [ParseCC] turns down as empty: the empty string, an
    input that starts with ["\r\n"], and an input that starts with ["\n"]
    and holds no ["\r\n"]; an input that starts with ["\n"] and has a
    ["\r\n"] further on is not among them. *)
Theorem ParseCC_empty_commit_iff (s : string) :
  ParseCC s = Returns (zeroCC, Some (Errorf "empty commit")) <->
  s = "" \/ HasPrefix s crlf = true \/
  (Contains s crlf = false /\ HasPrefix s nl = true).
Proof.
  rewrite <- firstLineOf_empty_iff, ParseCC_eq.
  destruct (String.length (firstLineOf s) =? 0)%nat eqn:Hlen.
  - apply length_zero_iff in Hlen. split; [intros _; exact Hlen | reflexivity].
  - split.
    + destruct (ParseHeader (to_runes (firstLineOf s))) as [[header [e|]]|p];
        cbn [bind fst snd]; try discriminate.
      destruct (0 <? String.length (otherLinesOf s))%nat; [|discriminate].
      destruct (ParseRest (to_runes (otherLinesOf s))) as [[rest [e|]]|p];
        cbn [bind fst snd]; discriminate.
    + intro E. apply length_zero_iff in E. congruence.
Qed.

Lemma headerChild_Description (children : list Result) (header : CCHeader) :
  h_Description (fold_left headerChild children header) = h_Description header.
Proof.
  revert header. induction children as [|child children IH]; intro header;
    [reflexivity|].
  cbn [fold_left]. rewrite IH. unfold headerChild.
  destruct (Type_ child =? "BreakingChangeBang"); [reflexivity|].
  destruct (Type_ child =? "Scope"); [reflexivity|].
  destruct (Type_ child =? "CommitType"); reflexivity.
Qed.

(** X3. Whenever [ParseHeader] reports an error the description of the
    header it hands back is empty: the header is the zero value when the
    context did not match, and holds what the children of the context gave
    when only the separator [": "] was missing. *)
Theorem ParseHeader_error_no_description (head : runes) (header : CCHeader) (e : error) :
  ParseHeader head = Returns (header, Some e) ->
  h_Description header = "" /\
  (Context head = inr e /\ header = zeroCCHeader \/
   exists ctx,
     Context head = inl ctx /\
     Sequence [ColonSep; TakeUntil Empty] (Remaining ctx) = inr e /\
     header = fold_left headerChild (Children ctx) zeroCCHeader).
Proof.
  unfold ParseHeader. destruct (Context head) as [ctx|ctxErr] eqn:C.
  - destruct (Sequence [ColonSep; TakeUntil Empty] (Remaining ctx))
      as [desc|descErr] eqn:D.
    + destruct (index (Children desc) 1); intro H; discriminate H.
    + intros [= <- <-]. split; [apply headerChild_Description|].
      right. exists ctx. auto.
  - intros [= <- <-]. split; [reflexivity|]. left. auto.
Qed.

(** The last child with a given tag, if any. *)
Lemma headerChild_Type (children : list Result) (header : CCHeader) :
  h_Type (fold_left headerChild children header) =
  match find (fun child => Type_ child =? "CommitType") (rev children) with
  | Some child => Value child
  | None => h_Type header
  end.
Proof.
  induction children as [|child children IH] using rev_ind; [reflexivity|].
  rewrite fold_left_app, rev_app_distr. cbn [fold_left rev app find].
  unfold headerChild at 1.
  destruct (Type_ child =? "BreakingChangeBang") eqn:B.
  - apply String.eqb_eq in B. rewrite B. exact IH.
  - destruct (Type_ child =? "Scope") eqn:S.
    + apply String.eqb_eq in S. rewrite S. exact IH.
    + destruct (Type_ child =? "CommitType"); [reflexivity | exact IH].
Qed.

Lemma headerChild_Scope (children : list Result) (header : CCHeader) :
  h_Scope (fold_left headerChild children header) =
  match find (fun child => Type_ child =? "Scope") (rev children) with
  | Some child => Value child
  | None => h_Scope header
  end.
Proof.
  induction children as [|child children IH] using rev_ind; [reflexivity|].
  rewrite fold_left_app, rev_app_distr. cbn [fold_left rev app find].
  unfold headerChild at 1.
  destruct (Type_ child =? "BreakingChangeBang") eqn:B.
  - apply String.eqb_eq in B. rewrite B. exact IH.
  - destruct (Type_ child =? "Scope"); [reflexivity|].
    destruct (Type_ child =? "CommitType"); exact IH.
Qed.

(** X4. What a header parsed without error holds: the flag is set exactly
    when some child of the context is tagged [BreakingChangeBang], type and
    scope are the values of the last child tagged [CommitType] and [Scope]
    (empty without such a child), and the description is the value of the
    second child of the separator-and-description match. *)
Theorem ParseHeader_fields (head : runes) (header : CCHeader) :
  ParseHeader head = Returns (header, None) ->
  exists ctx desc d,
    Context head = inl ctx /\
    Sequence [ColonSep; TakeUntil Empty] (Remaining ctx) = inl desc /\
    nth_error (Children desc) 1 = Some d /\
    h_Description header = Value d /\
    h_BreakingChange header =
      existsb (fun child => Type_ child =? "BreakingChangeBang") (Children ctx) /\
    h_Type header =
      match find (fun child => Type_ child =? "CommitType") (rev (Children ctx)) with
      | Some child => Value child
      | None => ""
      end /\
    h_Scope header =
      match find (fun child => Type_ child =? "Scope") (rev (Children ctx)) with
      | Some child => Value child
      | None => ""
      end.
Proof.
  unfold ParseHeader. destruct (Context head) as [ctx|ctxErr]; [|discriminate].
  destruct (Sequence [ColonSep; TakeUntil Empty] (Remaining ctx)) as [desc|descErr] eqn:D;
    [|discriminate].
  unfold index. destruct (nth_error (Children desc) 1) as [d|] eqn:N;
    cbn [bind]; [|discriminate].
  intros [= <-]. exists ctx, desc, d. cbn [h_Description h_BreakingChange h_Type h_Scope].
  rewrite headerChild_flag, headerChild_Type, headerChild_Scope.
  repeat split; auto.
Qed.

(** X5. What [ParseRest] hands back.  Without error: the body is the value
    of the second child of the body match, the footers are the values of
    the footer matches in order, and the flag is set exactly when the first
    child of some footer match is tagged [BreakingChange].  With an error:
    no footer and no flag, and a body only if the error is that of the
    footers. *)
Theorem ParseRest_fields (input : runes) (rest : CCRest) (err : option error) :
  ParseRest input = Returns (rest, err) ->
  match err with
  | None =>
      exists body b fs,
        Body input = inl body /\ nth_error (Children body) 1 = Some b /\
        Footers (Remaining body) = inl fs /\
        r_Body rest = Value b /\
        r_Footers rest = map Value (Children fs) /\
        r_BreakingChange rest =
          existsb (fun footer =>
                     match Children footer with
                     | token :: _ => Type_ token =? "BreakingChange"
                     | [] => false
                     end) (Children fs)
  | Some e =>
      r_Footers rest = [] /\ r_BreakingChange rest = false /\
      (Body input = inr e /\ r_Body rest = "" \/
       exists body b,
         Body input = inl body /\ nth_error (Children body) 1 = Some b /\
         Footers (Remaining body) = inr e /\ r_Body rest = Value b)
  end.
Proof.
  unfold ParseRest. destruct (Body input) as [body|bodyErr].
  - unfold index. destruct (nth_error (Children body) 1) as [b|] eqn:N;
      cbn [bind]; [|discriminate].
    destruct (Footers (Remaining body)) as [fs|fErr] eqn:F.
    + destruct (restFooters (Children fs)) as [fb|p] eqn:R; cbn [bind]; [|discriminate].
      intros [= <- <-]. destruct (restFooters_flag _ _ R) as [Hf Hb].
      exists body, b, fs. cbn [r_Body r_Footers r_BreakingChange]. auto 10.
    + intros [= <- <-]. cbn. split; [reflexivity|]. split; [reflexivity|].
      right. exists body, b. auto.
  - intros [= <- <-]. cbn. auto.
Qed.

End ParserFacts.

(** ** The grammar over the core of the specification *)

Lemma to_of_runes (rs : runes) : to_runes (of_runes rs) = rs.
Proof. apply list_ascii_of_string_of_list_ascii. Qed.

Lemma valueConsumed_leavesSuffix (p : Parser) : valueConsumed p -> leavesSuffix p.
Proof. intros H input r Hr. exists (to_runes (Value r)). exact (H input r Hr). Qed.

Lemma stripPrefix_Some (p input rest : runes) :
  Core.stripPrefix p input = Some rest -> input = (p ++ rest)%list.
Proof.
  revert input. induction p as [|c p IH]; intros input H.
  - now injection H as <-.
  - destruct input as [|x input]; [discriminate H|]. cbn [Core.stripPrefix] in H.
    destruct (Ascii.eqb c x) eqn:E; [|discriminate H].
    apply Ascii.eqb_eq in E. subst x. cbn [app]. f_equal. exact (IH input H).
Qed.

Lemma Tag_valueConsumed (s : string) : valueConsumed (Tag s).
Proof.
  intros input r. cbn [Tag specCore]. unfold Core.Tag.
  destruct (Core.stripPrefix (to_runes s) input) as [rest|] eqn:E; [|discriminate].
  intros [= <-]. exact (stripPrefix_Some _ _ _ E).
Qed.

Lemma LiteralRune_valueConsumed (c : rune) : valueConsumed (LiteralRune c).
Proof.
  intros input r. cbn [LiteralRune specCore]. unfold Core.LiteralRune.
  destruct input as [|x input]; [discriminate|].
  destruct (Ascii.eqb x c) eqn:E; [|discriminate].
  apply Ascii.eqb_eq in E. subst x. now intros [= <-].
Qed.

Lemma span_app (f : rune -> bool) (input : runes) :
  input = (fst (Core.span f input) ++ snd (Core.span f input))%list.
Proof.
  induction input as [|c input IH]; [reflexivity|]. cbn [Core.span].
  destruct (f c); [|reflexivity].
  destruct (Core.span f input) as [taken rest]. cbn [fst snd app] in *. now f_equal.
Qed.

Lemma Regex_valueConsumed (pattern : string) : valueConsumed (Regex pattern).
Proof.
  intros input r. cbn [Regex specCore]. unfold Core.Regex.
  destruct (pattern =? "[\w-]+"); [|discriminate].
  pose proof (span_app Core.isKebab input) as H.
  destruct (Core.span Core.isKebab input) as [[|c taken] rest]; [discriminate|].
  intros [= <-]. cbn [Value Remaining Core.leaf].
  change (String c (of_runes taken)) with (of_runes (c :: taken)).
  now rewrite to_of_runes.
Qed.

Lemma Empty_valueConsumed : valueConsumed Empty.
Proof.
  intros input r. cbn [Empty specCore]. unfold Core.Empty.
  destruct input; [|discriminate]. now intros [= <-].
Qed.

Lemma TakeUntil_valueConsumed (stop : Parser) : valueConsumed (TakeUntil stop).
Proof.
  intros input. cbn [TakeUntil specCore].
  induction input as [|c input IH]; intros r; rewrite TakeUntil_eq.
  - destruct (stop []); [|discriminate]. now intros [= <-].
  - destruct (stop (c :: input)); [now intros [= <-]|].
    destruct (Core.TakeUntil stop input) as [r'|e']; [|discriminate].
    intros [= <-]. cbn [Value Remaining Core.leaf]. rewrite to_runes_cons.
    cbn [app]. f_equal. exact (IH r' eq_refl).
Qed.

Lemma Marked_valueConsumed (kind : string) (p : Parser) :
  valueConsumed p -> valueConsumed (Marked kind p).
Proof.
  intros Hp input r. cbn [Marked specCore]. unfold Core.Marked.
  destruct (p input) as [r'|e] eqn:E; [|discriminate].
  intros [= <-]. exact (Hp input r' E).
Qed.

Lemma Any_valueConsumed (ps : list Parser) :
  Forall valueConsumed ps -> valueConsumed (Any ps).
Proof.
  cbn [Any specCore]. induction 1 as [|p ps Hp _ IH]; intros input r; cbn [Core.Any].
  - discriminate.
  - destruct (p input) as [r'|e] eqn:E; [|apply IH].
    intros [= <-]. exact (Hp input r' E).
Qed.

Lemma Opt_valueConsumed (p : Parser) : valueConsumed p -> valueConsumed (Opt p).
Proof.
  intros Hp input r. cbn [Opt specCore]. unfold Core.Opt.
  destruct (p input) as [r'|e] eqn:E; intros [= <-]; [exact (Hp input r' E) | reflexivity].
Qed.




Lemma runAll_leavesSuffix (ps : list Parser) :
  Forall leavesSuffix ps ->
  forall input rs rest,
    Core.runAll ps input = inl (rs, rest) -> exists pre, input = (pre ++ rest)%list.
Proof.
  induction 1 as [|p ps Hp _ IH]; intros input rs rest; cbn [Core.runAll].
  - intros [= <- <-]. now exists [].
  - destruct (p input) as [r|e] eqn:E; [|discriminate].
    destruct (Core.runAll ps (Remaining r)) as [[rs' rest']|e] eqn:R; [|discriminate].
    intros [= <- <-]. destruct (Hp _ _ E) as [p1 H1], (IH _ _ _ R) as [p2 H2].
    exists (p1 ++ p2)%list. rewrite H1, H2 at 1. now rewrite <- app_assoc.
Qed.

Lemma consumed_app (pre rest : runes) :
  Core.consumed (pre ++ rest)%list rest = of_runes pre.
Proof.
  unfold Core.consumed. rewrite length_app, Nat.add_sub.
  now rewrite firstn_app, Nat.sub_diag, firstn_all, firstn_O, app_nil_r.
Qed.

Lemma Sequence_valueConsumed (ps : list Parser) :
  Forall leavesSuffix ps -> valueConsumed (Sequence ps).
Proof.
  intros Hps input r. cbn [Sequence specCore]. unfold Core.Sequence.
  destruct (Core.runAll ps input) as [[rs rest]|e] eqn:R; [|discriminate].
  intros [= <-]. cbn [Value Remaining].
  destruct (runAll_leavesSuffix ps Hps _ _ _ R) as [pre ->].
  now rewrite consumed_app, to_of_runes.
Qed.

Lemma runAll_pair (p q : Parser) (input : runes) (rs : list Result) (rest : runes) :
  Core.runAll [p; q] input = inl (rs, rest) ->
  exists r1 r2,
    p input = inl r1 /\ q (Remaining r1) = inl r2 /\ rs = [r1; r2] /\ rest = Remaining r2.
Proof.
  cbn [Core.runAll]. destruct (p input) as [r1|e] eqn:P; [|discriminate].
  destruct (q (Remaining r1)) as [r2|e] eqn:Q; [|discriminate].
  intros [= <- <-]. exists r1, r2. auto.
Qed.

Lemma Sequence_pair (p q : Parser) (input : runes) (r : Result) :
  Sequence [p; q] input = inl r ->
  exists r1 r2,
    p input = inl r1 /\ q (Remaining r1) = inl r2 /\
    Children r = [r1; r2] /\ Remaining r = Remaining r2.
Proof.
  cbn [Sequence specCore]. unfold Core.Sequence.
  destruct (Core.runAll [p; q] input) as [[rs rest]|e] eqn:R; [|discriminate].
  intros [= <-]. cbn [Children Remaining].
  destruct (runAll_pair _ _ _ _ _ R) as (r1 & r2 & H1 & H2 & -> & ->). eauto 8.
Qed.

Lemma Sequence_pair_intro (p q : Parser) (input : runes) (r1 r2 : Result) :
  p input = inl r1 -> q (Remaining r1) = inl r2 ->
  exists r, Sequence [p; q] input = inl r /\
            Children r = [r1; r2] /\ Remaining r = Remaining r2.
Proof.
  intros H1 H2. cbn [Sequence specCore]. unfold Core.Sequence. cbn [Core.runAll].
  rewrite H1, H2. eauto.
Qed.

(** The parsers of the grammar keep to their input. *)
Lemma Newline_valueConsumed : valueConsumed Newline.
Proof.
  apply Marked_valueConsumed, Any_valueConsumed.
  repeat constructor; [apply LiteralRune_valueConsumed | apply Tag_valueConsumed].
Qed.





Lemma FooterToken_valueConsumed : valueConsumed FooterToken.
Proof.
  apply Any_valueConsumed. repeat constructor.
  - apply Marked_valueConsumed, Sequence_valueConsumed. repeat constructor.
    + apply valueConsumed_leavesSuffix, Any_valueConsumed.
      repeat constructor; apply Tag_valueConsumed.
    + apply valueConsumed_leavesSuffix, Tag_valueConsumed.
  - apply Sequence_valueConsumed. repeat constructor.
    + apply valueConsumed_leavesSuffix, Regex_valueConsumed.
    + apply valueConsumed_leavesSuffix, Any_valueConsumed.
      repeat constructor; apply Tag_valueConsumed.
Qed.

Lemma Footer_valueConsumed : valueConsumed Footer.
Proof.
  apply Sequence_valueConsumed. repeat constructor;
    apply valueConsumed_leavesSuffix;
    [apply FooterToken_valueConsumed | apply TakeUntil_valueConsumed].
Qed.

(** [TakeUntil] ends where its stop parser matches, and always finds such a
    place when the stop parser matches the end of the input. *)
Lemma TakeUntil_stops (stop : Parser) (input : runes) (r : Result) :
  TakeUntil stop input = inl r -> exists r', stop (Remaining r) = inl r'.
Proof.
  cbn [TakeUntil specCore]. revert r.
  induction input as [|c input IH]; intro r; rewrite TakeUntil_eq.
  - destruct (stop []) as [r'|e] eqn:E; [|discriminate]. intros [= <-]. eauto.
  - destruct (stop (c :: input)) as [r'|e] eqn:E; [intros [= <-]; eauto|].
    destruct (Core.TakeUntil stop input) as [r'|e']; [|discriminate].
    intros [= <-]. exact (IH r' eq_refl).
Qed.

Lemma TakeUntil_total (stop : Parser) :
  (exists r0, stop [] = inl r0) ->
  forall input, exists r, TakeUntil stop input = inl r.
Proof.
  intros [r0 H0] input. cbn [TakeUntil specCore].
  induction input as [|c input [r IH]]; rewrite TakeUntil_eq.
  - rewrite H0. eauto.
  - destruct (stop (c :: input)); [eauto|]. rewrite IH. eauto.
Qed.

Lemma footerStop_at_end : exists r0, Any [Empty; FooterToken] [] = inl r0.
Proof. eexists. reflexivity. Qed.

Lemma footerStop_inv (c : rune) (input : runes) (r : Result) :
  Any [Empty; FooterToken] (c :: input) = inl r -> FooterToken (c :: input) = inl r.
Proof.
  cbn [Any specCore Core.Any Empty Core.Empty].
  destruct (FooterToken (c :: input)); [trivial | discriminate].
Qed.

Lemma FooterToken_at_end : exists e, FooterToken [] = inr e.
Proof. eexists. reflexivity. Qed.

Lemma Tag_shortens (s : string) (input : runes) (r : Result) :
  s <> "" -> Tag s input = inl r -> List.length (Remaining r) < List.length input.
Proof.
  intros Hs H. cbn [Tag specCore] in H. unfold Core.Tag in H.
  destruct (Core.stripPrefix (to_runes s) input) as [rest|] eqn:E; [|discriminate H].
  injection H as <-. apply stripPrefix_Some in E. subst input.
  cbn [Remaining Core.leaf]. rewrite length_app.
  destruct s; [contradiction | cbn; lia].
Qed.

Lemma separator_shortens (input : runes) (r : Result) :
  Any [ColonSep; Tag " #"] input = inl r ->
  List.length (Remaining r) < List.length input.
Proof.
  cbn [Any specCore Core.Any]. unfold ColonSep.
  destruct (Tag ": " input) as [r1|e] eqn:E1.
  - intros [= <-]. apply (Tag_shortens ": "); [discriminate | exact E1].
  - destruct (Tag " #" input) as [r2|e'] eqn:E2; [|discriminate].
    intros [= <-]. apply (Tag_shortens " #"); [discriminate | exact E2].
Qed.

Lemma suffix_length (input pre rest : runes) :
  input = (pre ++ rest)%list -> List.length rest <= List.length input.
Proof. intros ->. rewrite length_app. lia. Qed.

Lemma Any_two_inv (p q : Parser) (input : runes) (r : Result) :
  Any [p; q] input = inl r -> p input = inl r \/ q input = inl r.
Proof.
  cbn [Any specCore Core.Any]. destruct (p input); [intros [= <-]; auto|].
  destruct (q input); [intros [= <-]; auto | discriminate].
Qed.

Lemma Marked_inv (kind : string) (p : Parser) (input : runes) (r : Result) :
  Marked kind p input = inl r ->
  exists r', p input = inl r' /\ Remaining r = Remaining r' /\ Type_ r = kind.
Proof.
  cbn [Marked specCore]. unfold Core.Marked.
  destruct (p input) as [r'|e]; [|discriminate]. intros [= <-]. eauto.
Qed.

Lemma FooterToken_shortens (input : runes) (r : Result) :
  FooterToken input = inl r -> List.length (Remaining r) < List.length input.
Proof.
  intro H. apply Any_two_inv in H. destruct H as [H|H].
  - apply Marked_inv in H. destruct H as (r' & H & -> & _).
    destruct (Sequence_pair _ _ _ _ H) as (a & b & Ha & Hb & _ & ->).
    assert (valueConsumed BreakingChange) as Hv
      by (apply Any_valueConsumed; repeat constructor; apply Tag_valueConsumed).
    pose proof (suffix_length _ _ _ (Hv _ _ Ha)).
    pose proof (Tag_shortens ": " _ _ ltac:(discriminate) Hb). lia.
  - destruct (Sequence_pair _ _ _ _ H) as (a & b & Ha & Hb & _ & ->).
    pose proof (suffix_length _ _ _ (Regex_valueConsumed _ _ _ Ha)).
    pose proof (separator_shortens _ _ Hb). lia.
Qed.

(** At a place where a footer token matches, a footer matches, takes at
    least one character and ends where the stop parser matches again. *)
Lemma Footer_at_token (input : runes) (t : Result) :
  FooterToken input = inl t ->
  exists f,
    Footer input = inl f /\ Children f <> [] /\
    input = (to_runes (Value f) ++ Remaining f)%list /\
    List.length (Remaining f) < List.length input /\
    exists r', Any [Empty; FooterToken] (Remaining f) = inl r'.
Proof.
  intro Ht.
  destruct (TakeUntil_total _ footerStop_at_end (Remaining t)) as [u Hu].
  destruct (Sequence_pair_intro FooterToken _ _ _ _ Ht Hu) as (f & Hf & Hc & Hr).
  exists f. fold Footer in Hf. split; [exact Hf|].
  split; [rewrite Hc; discriminate|].
  split; [exact (Footer_valueConsumed _ _ Hf)|]. rewrite Hr. split.
  - pose proof (FooterToken_shortens _ _ Ht).
    pose proof (suffix_length _ _ _ (TakeUntil_valueConsumed _ _ _ Hu)). lia.
  - exact (TakeUntil_stops _ _ _ Hu).
Qed.

(** Started where the stop parser matches, the footers take all that is
    left of the input. *)
Lemma Footers_take_all (fuel : nat) (input : runes) :
  List.length input < fuel ->
  (exists r', Any [Empty; FooterToken] input = inl r') ->
  exists fs,
    Core.repeat0 Footer fuel input = (fs, []) /\
    Forall (fun footer => Children footer <> []) fs /\
    input = concat (map (fun f => to_runes (Value f)) fs).
Proof.
  revert input. induction fuel as [|fuel IH]; intros input Hlen [r' Hstop]; [lia|].
  cbn [Core.repeat0]. destruct input as [|c input].
  - exists []. split; [reflexivity|]. split; [constructor | reflexivity].
  - apply footerStop_inv in Hstop.
    destruct (Footer_at_token _ _ Hstop) as (f & Hf & Hc & Hv & Hl & Hs).
    rewrite Hf. cbn [List.length] in Hlen, Hl.
    destruct (IH (Remaining f) ltac:(lia) Hs) as (fs & -> & Hcs & Hfs).
    exists (f :: fs). split; [reflexivity|]. split; [now constructor|].
    cbn [map concat]. now rewrite <- Hfs.
Qed.




(** After a newline [ParseRest] always goes through, and body and footers
    are the text behind the newline, cut into pieces. *)
Lemma ParseRest_after_newline (input : runes) (n : Result) :
  Newline input = inl n ->
  exists rest,
    ParseRest input = Returns (rest, None) /\
    Remaining n = (to_runes (r_Body rest) ++ concat (map to_runes (r_Footers rest)))%list.
Proof.
  intro Hn.
  destruct (TakeUntil_total _ footerStop_at_end (Remaining n)) as [b Hb].
  destruct (Sequence_pair_intro Newline _ _ _ _ Hn Hb) as (body & Hbody & Hc & Hr).
  fold Body in Hbody.
  destruct (Footers_take_all (S (List.length (Remaining b))) (Remaining b)
              ltac:(lia) (TakeUntil_stops _ _ _ Hb)) as (fs & Hfs & Hch & Hcat).
  destruct (restFooters_returns fs Hch) as [fb Hfb].
  destruct (restFooters_flag _ _ Hfb) as [Hvalues _].
  exists (mkCCRest (Value b) (fst fb) (snd fb)). split.
  - unfold ParseRest. rewrite Hbody, Hc. cbn [index nth_error bind r_Footers
      r_BreakingChange r_Body zeroCCRest].
    unfold Footers. cbn [Many0 specCore]. unfold Core.Many0.
    rewrite Hr, Hfs. cbn [Children]. rewrite Hfb. reflexivity.
  - cbn [r_Body r_Footers]. rewrite Hvalues, map_map, <- Hcat.
    exact (TakeUntil_valueConsumed _ _ _ Hb).
Qed.

Lemma of_runes_app (a b : runes) :
  of_runes (a ++ b)%list = of_runes a ++ of_runes b.
Proof.
  induction a as [|c a IH]; [reflexivity|].
  change (of_runes ((c :: a) ++ b)%list) with (String c (of_runes (a ++ b)%list)).
  now rewrite IH.
Qed.

Lemma of_runes_concat (l : list string) :
  of_runes (concat (map to_runes l)) = String.concat "" l.
Proof.
  induction l as [|x l IH]; [reflexivity|].
  cbn [map concat]. rewrite of_runes_app, of_to_runes, IH.
  destruct l as [|y l]; [apply append_nil_r | reflexivity].
Qed.

(** X6. With the combinator core of the specification, [ParseRest] goes
    through on every text that starts with a newline, whatever follows, and
    loses nothing: the body and the footers, put together in order, are the
    text behind that newline. *)
Theorem ParseRest_partition (sep text : string) :
  sep = nl \/ sep = crlf ->
  exists rest,
    ParseRest (to_runes (sep ++ text)) = Returns (rest, None) /\
    text = r_Body rest ++ String.concat "" (r_Footers rest).
Proof.
  intro Hsep.
  assert (Hn : exists n, Newline (to_runes (sep ++ text)) = inl n /\
                         Remaining n = to_runes text).
  { destruct Hsep as [->| ->]; eexists; split; reflexivity. }
  destruct Hn as (n & Hn & Hrem).
  destruct (ParseRest_after_newline _ _ Hn) as (rest & Hrest & Hparts).
  exists rest. split; [exact Hrest|].
  rewrite Hrem in Hparts. apply (f_equal of_runes) in Hparts.
  now rewrite of_to_runes, of_runes_app, of_to_runes, of_runes_concat in Hparts.
Qed.








Lemma TrimRight_cons (c : rune) (s cutset : string) :
  TrimRight (String c s) cutset =
  match TrimRight s cutset with
  | EmptyString => if inCutset c cutset then EmptyString else String c EmptyString
  | r => String c r
  end.
Proof. reflexivity. Qed.

Lemma TrimRight_keeps_head (c : rune) (s cutset : string) :
  inCutset c cutset = false -> exists r, TrimRight (String c s) cutset = String c r.
Proof.
  intro H. rewrite TrimRight_cons, H. destruct (TrimRight s cutset); eauto.
Qed.

(** X9. With the combinator core of the specification, the serializer and
    the parse entry point fit together: under the conditions of the header
    round trip [ParseCC] returns, for the text [value] writes, a record
    without error that holds the type and the scope of the model and whose
    flag says whether the breaking-change text is non-empty; without such a
    text body and footers are empty. *)
Theorem ParseCC_value (t s d bc : string) :
  Contains t "!" = false -> Contains t ":" = false -> Contains t "(" = false ->
  Contains s ")" = false ->
  Contains d nl = false -> Contains t nl = false -> Contains s nl = false ->
  Contains (value (modelOf t s d bc)) crlf = false ->
  exists cc,
    ParseCC (value (modelOf t s d bc)) = Returns (cc, None) /\
    cc_Type cc = t /\ cc_Scope cc = s /\ cc_BreakingChange cc = nonEmpty bc /\
    (bc = "" -> cc_Body cc = "" /\ cc_Footers cc = []).
Proof.
  intros Hbang Hcolon Hparen Hclose Hd Ht Hs Hcrlf.
  rewrite ParseCC_eq. unfold otherLinesOf, firstLineOf. rewrite value_eq in *.
  rewrite (splitOutFirstLine_LF _ _ Hcrlf
             (headerLine_no_newline t s d (nonEmpty bc) Ht Hs Hd)).
  cbn [fst snd].
  replace (String.length _ =? 0)%nat with false
    by (symmetry; apply Nat.eqb_neq; rewrite !length_append; cbn; lia).
  rewrite headerLine_runes.
  rewrite (ParseHeader_serialized _ _ _ _
             (no_type_end_forallb t Hbang Hcolon Hparen)
             (absent_char_forallb s ")"%char Hclose)).
  cbn [bind fst snd h_Type h_Scope h_BreakingChange]. rewrite !of_to_runes.
  destruct (nonEmpty bc) eqn:E.
  - change (nl ++ "BREAKING CHANGE: " ++ bc ++ nl)
      with (String LF (String "B"%char ("REAKING CHANGE: " ++ bc ++ nl))).
    destruct (TrimRight_keeps_head "B"%char ("REAKING CHANGE: " ++ bc ++ nl)
                whitespace eq_refl) as [r Hr].
    rewrite TrimRight_cons, Hr. cbn [String.length Nat.ltb Nat.leb].
    destruct (ParseRest_after_newline (to_runes (String LF (String "B"%char r)))
                (mkResult "Newline" nl [] (to_runes (String "B"%char r))) eq_refl)
      as (rest & -> & _).
    cbn [bind fst snd]. eexists. split; [reflexivity|]. cbn.
    split; [reflexivity|]. split; [reflexivity|]. split; [reflexivity|].
    intros ->. discriminate E.
  - cbn. eexists. split; [reflexivity|]. cbn. auto.
Qed.

(** ** The composer *)

Lemma value_not_empty (m : model) : value m <> "".
Proof.
  rewrite value_over_context. intro H. apply (f_equal String.length) in H.
  rewrite !length_append in H. cbn in H. lia.
Qed.

Lemma ready_iff (m : model) :
  ready m = true <->
  commit m commitTypeIndex <> "" /\ commit m shortDescriptionIndex <> "".
Proof.
  unfold ready. rewrite andb_true_iff, !length_pos_iff. reflexivity.
Qed.

Lemma ready_setCommit_breaking (m : model) (v : string) :
  ready (setCommit m breakingChangeIndex v) = ready m.
Proof. reflexivity. Qed.

Section ComposerFacts.
Context {inputs : InputComponents}.

(** X10. What [main] gets from [done]: with an empty channel [done] puts
    one string into it and asks to quit; [main] then leaves with code 1
    exactly when type or description is missing, and prints the text
    [value] wrote otherwise, which is never the empty string.  On a full
    channel [done] blocks. *)
Theorem done_then_main (m : composer) :
  (ready (texts m) = true ->
   done m [] = Continues (m, Quit, [value (texts m)]) /\
   afterStart [value (texts m)] =
     Continues (nl ++ "---" ++ nl ++ "You chose `" ++ value (texts m) ++ "`" ++ nl)) /\
  (ready (texts m) = false ->
   done m [] = Continues (m, Quit, [""]) /\ afterStart [""] = Exits 1 "") /\
  (forall v, done m [v] = Blocks).
Proof.
  unfold done. cbn [send List.length Nat.ltb Nat.leb app]. repeat split.
  - now rewrite H.
  - cbn [afterStart]. pose proof (value_not_empty (texts m)) as Hne.
    apply String.eqb_neq in Hne. now rewrite Hne.
  - now rewrite H.
Qed.

Lemma done_Continues (m m' : composer) (ch ch' : chan) (c : Cmd) :
  done m ch = Continues (m', c, ch') ->
  m' = m /\ c = Quit /\ ch = [] /\
  ch' = [if ready (texts m) then value (texts m) else ""].
Proof.
  unfold done, send. destruct ch as [|x ch]; cbn; [|discriminate].
  intros [= <- <- <-]. auto.
Qed.

Lemma done_no_exit (m : composer) (ch : chan) :
  (forall code out, done m ch <> Exits code out) /\
  (forall p, done m ch <> Crashes p).
Proof. unfold done. destruct (send ch _); split; discriminate. Qed.

Lemma componentAt_in_range (n : Z) :
  (0 <= n <= 3)%Z -> exists i, componentAt n = Some i /\ indexNumber i = n.
Proof.
  intro H. unfold componentAt.
  destruct (n =? 0)%Z eqn:E0; [apply Z.eqb_eq in E0; subst; eauto|].
  destruct (n =? 1)%Z eqn:E1; [apply Z.eqb_eq in E1; subst; eauto|].
  destruct (n =? 2)%Z eqn:E2; [apply Z.eqb_eq in E2; subst; eauto|].
  destruct (n =? 3)%Z eqn:E3; [apply Z.eqb_eq in E3; subst; eauto|].
  apply Z.eqb_neq in E0, E1, E2, E3. lia.
Qed.

Lemma currentValue_in_range (m : composer) :
  (0 <= viewing m <= 3)%Z -> exists v, currentValue m = Returns v.
Proof.
  intro H. unfold currentValue.
  destruct (componentAt_in_range _ H) as (i & -> & Hi).
  destruct i; eauto. cbn in Hi. lia.
Qed.

(** One step of [Update] from a view in range. *)
Lemma Update_in_range (m : composer) (ch : chan) (msg : Msg) :
  (0 <= viewing m <= 3)%Z ->
  Update m ch msg = Blocks /\ ch <> [] \/
  exists m' c ch',
    Update m ch msg = Continues (m', c, ch') /\ (0 <= viewing m' <= 3)%Z /\
    commit (texts m') scopeIndex = commit (texts m) scopeIndex /\
    (c = CmdNil /\ ch' = ch \/
     c = Quit /\ ch = [] /\
     ch' = [if ready (texts m') then value (texts m') else ""]).
Proof.
  intro Hv.
  assert (Hdone : forall m0, (0 <= viewing m0 <= 3)%Z ->
            commit (texts m0) scopeIndex = commit (texts m) scopeIndex ->
            done m0 ch = Blocks /\ ch <> [] \/
            exists m' c ch',
              done m0 ch = Continues (m', c, ch') /\ (0 <= viewing m' <= 3)%Z /\
              commit (texts m') scopeIndex = commit (texts m) scopeIndex /\
              (c = CmdNil /\ ch' = ch \/
               c = Quit /\ ch = [] /\
               ch' = [if ready (texts m') then value (texts m') else ""])).
  { intros m0 H0 Hs. unfold done, send. destruct ch as [|x ch]; cbn.
    - right. exists m0, Quit. eexists. split; [reflexivity|]. auto 10.
    - left. split; [reflexivity | discriminate]. }
  destruct msg as [[| | | |code]|tag]; cbn [Update].
  - apply Hdone; auto.
  - apply Hdone; auto.
  - right. destruct (indexNumber commitTypeIndex <? viewing m)%Z eqn:E.
    + apply Z.ltb_lt in E. cbn in E. do 3 eexists. split; [reflexivity|].
      cbn. split; [lia|]. auto.
    + do 3 eexists. split; [reflexivity|]. auto.
  - destruct (viewing m =? indexNumber scopeIndex)%Z eqn:E1.
    { apply Z.eqb_eq in E1. cbn in E1. right. do 3 eexists.
      split; [reflexivity|]. cbn. split; [lia|]. auto. }
    destruct (viewing m =? indexNumber breakingChangeIndex)%Z eqn:E3.
    { cbn [texts]. rewrite ready_setCommit_breaking.
      destruct (ready (texts m)) eqn:R.
      - apply Hdone; cbn; auto.
      - right. set (t1 := setCommit (texts m) breakingChangeIndex _).
        destruct (commit t1 commitTypeIndex =? "").
        + do 3 eexists. split; [reflexivity|]. cbn. split; [lia|]. auto.
        + destruct (commit t1 shortDescriptionIndex =? "").
          * do 3 eexists. split; [reflexivity|]. cbn. split; [lia|]. auto.
          * do 3 eexists. split; [reflexivity|]. cbn. split; [lia|]. auto. }
    destruct (viewing m =? indexNumber doneIndex)%Z eqn:E4.
    { apply Z.eqb_eq in E4. cbn in E4. lia. }
    apply Z.eqb_neq in E1, E3. cbn in E1, E3.
    destruct (currentValue_in_range m Hv) as [v ->].
    destruct (componentAt_in_range _ Hv) as (i & -> & Hi).
    right. do 3 eexists. split; [reflexivity|]. cbn. split; [lia|].
    split; [|auto]. destruct i; cbn in Hi; try reflexivity; lia.
  - right. do 3 eexists. split; [reflexivity|]. unfold updateCurrentInput.
    destruct (viewing m =? indexNumber commitTypeIndex)%Z;
      [cbn; split; [exact Hv|]; auto|].
    destruct (viewing m =? indexNumber scopeIndex)%Z;
      [cbn; split; [exact Hv|]; auto|].
    destruct (viewing m =? indexNumber shortDescriptionIndex)%Z;
      [cbn; split; [exact Hv|]; auto|].
    destruct (viewing m =? indexNumber breakingChangeIndex)%Z;
      cbn; (split; [exact Hv|]); auto.
  - right. do 3 eexists. split; [reflexivity|]. split; [exact Hv|]. auto.
Qed.

Lemma View_in_range (m : composer) :
  (0 <= viewing m <= 3)%Z -> exists v, View m = Returns v.
Proof.
  intro H. unfold View.
  destruct (componentAt_in_range _ H) as (i & -> & Hi).
  destruct i; eauto. cbn in Hi. lia.
Qed.

(** A run of [Update] over any messages, from a view in range and an empty
    channel. *)
Lemma feed_invariant (msgs : list Msg) (m : composer) :
  (0 <= viewing m <= 3)%Z ->
  exists m' c ch',
    feed m [] msgs = Continues (m', c, ch') /\ (0 <= viewing m' <= 3)%Z /\
    commit (texts m') scopeIndex = commit (texts m) scopeIndex /\
    (c = CmdNil /\ ch' = [] \/
     c = Quit /\ ch' = [if ready (texts m') then value (texts m') else ""]).
Proof.
  revert m. induction msgs as [|msg msgs IH]; intros m Hv; cbn [feed].
  - exists m, CmdNil, []. split; [reflexivity|]. split; [exact Hv|]. auto.
  - destruct (Update_in_range m [] msg Hv)
      as [[_ Habs]|(m1 & c & ch1 & -> & Hv1 & Hs1 & [[-> ->]|(-> & _ & ->)])].
    + now contradiction Habs.
    + destruct (IH m1 Hv1) as (m' & c' & ch' & Hf & Hv' & Hs' & Hc).
      exists m', c', ch'. rewrite Hs1 in Hs'.
      split; [exact Hf|]. split; [exact Hv'|]. split; [exact Hs' | exact Hc].
    + exists m1, Quit. eexists. split; [reflexivity|]. split; [exact Hv1|].
      split; [exact Hs1|]. right. split; reflexivity.
Qed.

(** X11. The composer never leaves its four steps: started on a step in
    range with an empty channel, and whatever messages arrive, [Update]
    neither panics on an index, nor reaches the [os.Exit] of the step
    [doneIndex], nor blocks; the step in view stays between
    [commitTypeIndex] and [breakingChangeIndex], so [View] has a component
    to show. *)
Theorem feed_stays_in_range (msgs : list Msg) (m : composer) :
  (0 <= viewing m <= 3)%Z ->
  exists m' c ch' shown,
    feed m [] msgs = Continues (m', c, ch') /\
    (indexNumber commitTypeIndex <= viewing m' <= indexNumber breakingChangeIndex)%Z /\
    View m' = Returns shown.
Proof.
  intro Hv. destruct (feed_invariant msgs m Hv) as (m' & c & ch' & Hf & Hv' & _).
  destruct (View_in_range m' Hv') as [shown Hshown].
  exists m', c, ch', shown. auto.
Qed.

(** X12. The scope is never recorded: no message makes [Update] write
    [commit[scopeIndex]] (Enter on the scope step only sets the prefix of
    the description editor), so in every run from [initialModel] the scope
    stays empty and [contextValue] is the bare type. *)
Theorem feed_never_records_scope (msgs : list Msg)
    (typeModel scopeModel : single_select) (descModel : description_editor)
    (bcModel : breaking_change_input) :
  exists m' c ch',
    feed (initialModel typeModel scopeModel descModel bcModel) [] msgs =
      Continues (m', c, ch') /\
    commit (texts m') scopeIndex = "" /\
    contextValue (texts m') = commit (texts m') commitTypeIndex.
Proof.
  destruct (feed_invariant msgs (initialModel typeModel scopeModel descModel bcModel))
    as (m' & c & ch' & Hf & _ & Hs & _); [cbn; lia|].
  exists m', c, ch'. split; [exact Hf|]. cbn in Hs. split; [exact Hs|].
  unfold contextValue. now rewrite Hs.
Qed.

(** X13. What reaches the channel: as long as [Update] has not asked to
    quit the channel is empty, and when it asks to quit the channel holds
    exactly one string, the text [value] writes for the texts collected if
    type and description are there, and the empty string if not. *)
Theorem feed_channel (msgs : list Msg) (m m' : composer) (c : Cmd) (ch' : chan) :
  (0 <= viewing m <= 3)%Z ->
  feed m [] msgs = Continues (m', c, ch') ->
  match c with
  | CmdNil => ch' = []
  | Quit => ch' = [if ready (texts m') then value (texts m') else ""]
  end.
Proof.
  intros Hv Hf.
  destruct (feed_invariant msgs m Hv) as (m1 & c1 & ch1 & Hf1 & _ & _ & Hc).
  rewrite Hf in Hf1. injection Hf1 as <- <- <-.
  destruct Hc as [[-> ->]|[-> ->]]; reflexivity.
Qed.

(** X14. Enter on the last step with type or description missing: nothing
    is sent and nothing quits; the breaking-change text is kept, and the
    composer goes back to the first of the two required steps whose text is
    empty. *)
Theorem Update_enter_not_ready (m : composer) (ch : chan) :
  viewing m = indexNumber breakingChangeIndex ->
  ready (texts m) = false ->
  exists m',
    Update m ch (KeyMsg KeyEnter) = Continues (m', CmdNil, ch) /\
    commit (texts m') breakingChangeIndex = breaking_Value (breakingChangeInput m) /\
    (commit (texts m) commitTypeIndex = "" /\
     viewing m' = indexNumber commitTypeIndex \/
     commit (texts m) commitTypeIndex <> "" /\
     commit (texts m) shortDescriptionIndex = "" /\
     viewing m' = indexNumber shortDescriptionIndex).
Proof.
  intros Hv Hr. cbn [Update]. rewrite Hv. cbn [indexNumber Z.eqb Pos.eqb].
  cbn [texts]. rewrite ready_setCommit_breaking, Hr.
  assert (Hcase : commit (texts m) commitTypeIndex = "" \/
                  commit (texts m) commitTypeIndex <> "" /\
                  commit (texts m) shortDescriptionIndex = "").
  { destruct (commit (texts m) commitTypeIndex =? "") eqn:Et.
    - left. now apply String.eqb_eq.
    - right. apply String.eqb_neq in Et. split; [exact Et|].
      destruct (commit (texts m) shortDescriptionIndex =? "") eqn:Ed;
        [now apply String.eqb_eq|].
      apply String.eqb_neq in Ed.
      assert (ready (texts m) = true) by (apply ready_iff; auto). congruence. }
  change (commit (setCommit (texts m) breakingChangeIndex
                    (breaking_Value (breakingChangeInput m))) commitTypeIndex)
    with (commit (texts m) commitTypeIndex).
  change (commit (setCommit (texts m) breakingChangeIndex
                    (breaking_Value (breakingChangeInput m))) shortDescriptionIndex)
    with (commit (texts m) shortDescriptionIndex).
  destruct Hcase as [Ht|[Ht Hd]].
  - rewrite Ht. cbn [String.eqb]. eexists. split; [reflexivity|]. cbn. auto.
  - apply String.eqb_neq in Ht. rewrite Ht, Hd. cbn [String.eqb].
    eexists. split; [reflexivity|]. cbn. apply String.eqb_neq in Ht. auto.
Qed.

(** X15. The whole way through: four times Enter from [initialModel], with
    a type chosen and a description entered, sends the text [value] writes
    for that type, an empty scope, that description and the breaking-change
    text, and asks to quit. *)
Theorem feed_four_enters (typeModel scopeModel : single_select)
    (descModel : description_editor) (bcModel : breaking_change_input) :
  select_Value typeModel <> "" ->
  editor_Value (editor_SetPrefix descModel (select_Value typeModel ++ ": ")) <> "" ->
  exists m',
    feed (initialModel typeModel scopeModel descModel bcModel) []
         [KeyMsg KeyEnter; KeyMsg KeyEnter; KeyMsg KeyEnter; KeyMsg KeyEnter] =
    Continues
      (m', Quit,
       [value (modelOf (select_Value typeModel) ""
                 (editor_Value
                    (editor_SetPrefix descModel (select_Value typeModel ++ ": ")))
                 (breaking_Value bcModel))]) /\
    forall i,
      commit (texts m') i =
      commit (modelOf (select_Value typeModel) ""
                (editor_Value
                   (editor_SetPrefix descModel (select_Value typeModel ++ ": ")))
                (breaking_Value bcModel)) i.
Proof.
  set (t := select_Value typeModel).
  set (d := editor_Value (editor_SetPrefix descModel (t ++ ": "))).
  set (bc := breaking_Value bcModel).
  intros Ht Hd. cbn [feed initialModel Update viewing indexNumber Z.eqb
    Pos.eqb Z.add Pos.add Pos.succ currentValue componentAt texts typeInput
    scopeInput descriptionInput breakingChangeInput].
  change (contextValue (setCommit (modelOf "" "" "" "") commitTypeIndex
                          (select_Value typeModel))) with ("" ++ t).
  cbn [append]. fold t. fold d. fold bc.
  set (final := setCommit (setCommit (setCommit (modelOf "" "" "" "")
                  commitTypeIndex t) shortDescriptionIndex d) breakingChangeIndex bc).
  assert (Hfinal : forall i, commit final i = commit (modelOf t "" d bc) i)
    by (intros []; reflexivity).
  assert (Hready : ready final = true) by (apply ready_iff; auto).
  assert (Hvalue : value final = value (modelOf t "" d bc)).
  { unfold value, contextValue. now rewrite !Hfinal. }
  rewrite Hready. unfold done. cbn [texts]. rewrite Hready, Hvalue.
  cbn [send List.length Nat.ltb Nat.leb app].
  eexists. split; [reflexivity|]. exact Hfinal.
Qed.

(** X18. Shift+Tab only goes back: [n] of them in a row lead [n] steps
    back, but not beyond the first step, and change neither the texts, nor
    the input components, nor the channel. *)
Theorem feed_shift_tabs (n : nat) (m : composer) (ch : chan) :
  (0 <= viewing m)%Z ->
  feed m ch (repeat (KeyMsg KeyShiftTab) n) =
  Continues (mkComposer (texts m) (Z.max 0 (viewing m - Z.of_nat n))
                        (typeInput m) (scopeInput m) (descriptionInput m)
                        (breakingChangeInput m),
             CmdNil, ch).
Proof.
  revert m. induction n as [|n IH]; intros m Hv.
  - cbn [repeat feed]. rewrite Z.sub_0_r, Z.max_r by lia. now destruct m.
  - cbn [repeat feed Update indexNumber].
    destruct (0 <? viewing m)%Z eqn:E.
    + apply Z.ltb_lt in E. rewrite IH by (cbn; lia). cbn [texts viewing typeInput
        scopeInput descriptionInput breakingChangeInput].
      now replace (viewing m - 1 - Z.of_nat n)%Z
        with (viewing m - Z.of_nat (S n))%Z by lia.
    + apply Z.ltb_ge in E. rewrite IH by exact Hv. now rewrite !Z.max_l by lia.
Qed.

End ComposerFacts.

(** ** Instances of the further properties *)

Lemma ParseCC_empty_commit_iff_witness :
  (Contains (nl ++ "fix: late header") crlf = false /\
   HasPrefix (nl ++ "fix: late header") nl = true) /\
  ParseCC (nl ++ "fix: late header") = Returns (zeroCC, Some (Errorf "empty commit")).
Proof.
  assert (H : Contains (nl ++ "fix: late header") crlf = false /\
              HasPrefix (nl ++ "fix: late header") nl = true)
    by (split; reflexivity).
  split; [exact H|].
  exact (proj2 (@ParseCC_empty_commit_iff specCore (nl ++ "fix: late header"))
           (or_intror (or_intror H))).
Defined.

Lemma ParseHeader_error_no_description_witness :
  ParseHeader (to_runes "feat(core)!bug") =
    Returns (mkCCHeader "feat" "core" "" true,
             Some (ParseFailure "Tag" (to_runes "bug"))) /\
  h_Description (mkCCHeader "feat" "core" "" true) = "".
Proof.
  assert (H : ParseHeader (to_runes "feat(core)!bug") =
              Returns (mkCCHeader "feat" "core" "" true,
                       Some (ParseFailure "Tag" (to_runes "bug"))))
    by (vm_compute; reflexivity).
  split; [exact H|].
  exact (proj1 (@ParseHeader_error_no_description specCore _ _ _ H)).
Defined.

Lemma ParseHeader_fields_witness :
  ParseHeader (to_runes "fix(core)!: bug") =
    Returns (mkCCHeader "fix" "core" "bug" true, None) /\
  exists ctx desc d,
    Context (to_runes "fix(core)!: bug") = inl ctx /\
    Sequence [ColonSep; TakeUntil Empty] (Remaining ctx) = inl desc /\
    nth_error (Children desc) 1 = Some d /\
    "bug" = Value d /\
    true = existsb (fun child => Type_ child =? "BreakingChangeBang") (Children ctx) /\
    "fix" =
      match find (fun child => Type_ child =? "CommitType") (rev (Children ctx)) with
      | Some child => Value child
      | None => ""
      end /\
    "core" =
      match find (fun child => Type_ child =? "Scope") (rev (Children ctx)) with
      | Some child => Value child
      | None => ""
      end.
Proof.
  assert (H : ParseHeader (to_runes "fix(core)!: bug") =
              Returns (mkCCHeader "fix" "core" "bug" true, None))
    by (vm_compute; reflexivity).
  split; [exact H|].
  exact (@ParseHeader_fields specCore _ _ H).
Defined.

Lemma ParseRest_fields_witness :
  ParseRest (to_runes (otherLinesOf footerOnly)) =
    Returns (mkCCRest "" ["BREAKING CHANGE: removes X"] true, None) /\
  exists body b fs,
    Body (to_runes (otherLinesOf footerOnly)) = inl body /\
    nth_error (Children body) 1 = Some b /\
    Footers (Remaining body) = inl fs /\
    "" = Value b /\
    ["BREAKING CHANGE: removes X"] = map Value (Children fs) /\
    true = existsb (fun footer =>
                      match Children footer with
                      | token :: _ => Type_ token =? "BreakingChange"
                      | [] => false
                      end) (Children fs).
Proof.
  assert (H : ParseRest (to_runes (otherLinesOf footerOnly)) =
              Returns (mkCCRest "" ["BREAKING CHANGE: removes X"] true, None))
    by (vm_compute; reflexivity).
  split; [exact H|].
  exact (@ParseRest_fields specCore _ _ None H).
Defined.

Lemma ParseRest_partition_witness :
  (nl = nl \/ nl = crlf) /\
  exists rest,
    ParseRest (to_runes (nl ++ "a body" ++ nl ++ nl ++ "Refs #12")) =
      Returns (rest, None) /\
    "a body" ++ nl ++ nl ++ "Refs #12" =
      r_Body rest ++ String.concat "" (r_Footers rest).
Proof.
  split; [left; reflexivity|].
  exact (ParseRest_partition nl ("a body" ++ nl ++ nl ++ "Refs #12")
           (or_introl eq_refl)).
Defined.



Lemma ParseCC_value_witness :
  Contains (value (modelOf "feat" "parser" "support scopes" "old API removed"))
           crlf = false /\
  exists cc,
    ParseCC (value (modelOf "feat" "parser" "support scopes" "old API removed")) =
      Returns (cc, None) /\
    cc_Type cc = "feat" /\ cc_Scope cc = "parser" /\
    cc_BreakingChange cc = nonEmpty "old API removed" /\
    ("old API removed" = "" -> cc_Body cc = "" /\ cc_Footers cc = []).
Proof.
  split; [reflexivity|].
  exact (ParseCC_value "feat" "parser" "support scopes" "old API removed"
           eq_refl eq_refl eq_refl eq_refl eq_refl eq_refl eq_refl eq_refl).
Defined.

Lemma ParseCC_panic_is_error_witness :
  ParseCC "foo" = Panics (PanicError (ParseFailure "TakeUntil" [])) /\
  exists e, PanicError (ParseFailure "TakeUntil" []) = PanicError e.
Proof.
  assert (H : ParseCC "foo" = Panics (PanicError (ParseFailure "TakeUntil" [])))
    by (vm_compute; reflexivity).
  split; [exact H|]. exact (ParseCC_panic_is_error "foo" _ H).
Defined.

Lemma value_without_crlf_witness :
  (Contains "feat" nl = false /\ Contains "parser" nl = false /\
   Contains "support scopes" (String CR "") = false /\
   Contains "old API removed" (String CR "") = false) /\
  Contains (value (modelOf "feat" "parser" "support scopes" "old API removed"))
           crlf = false.
Proof.
  split; [repeat split; reflexivity|].
  exact (value_without_crlf "feat" "parser" "support scopes" "old API removed"
           eq_refl eq_refl eq_refl eq_refl).
Defined.

Lemma done_then_main_witness :
  ready (modelOf "feat" "" "add a parser" "") = true /\
  done (inputs := fixedInputs)
       (mkComposer (inputs := fixedInputs) (modelOf "feat" "" "add a parser" "") 3 "feat" "" "add a parser" "")
       [] =
    Continues
      (mkComposer (inputs := fixedInputs) (modelOf "feat" "" "add a parser" "") 3 "feat" "" "add a parser" "",
       Quit, [value (modelOf "feat" "" "add a parser" "")]) /\
  afterStart [value (modelOf "feat" "" "add a parser" "")] =
    Continues (nl ++ "---" ++ nl ++ "You chose `"
               ++ value (modelOf "feat" "" "add a parser" "") ++ "`" ++ nl).
Proof.
  split; [reflexivity|].
  exact (proj1 (@done_then_main fixedInputs
                  (mkComposer (inputs := fixedInputs) (modelOf "feat" "" "add a parser" "") 3
                              "feat" "" "add a parser" ""))
           eq_refl).
Defined.

Lemma feed_stays_in_range_witness :
  (0 <= viewing (initialModel (inputs := fixedInputs) "feat" "" "add a parser" "")
     <= 3)%Z /\
  exists m' c ch' shown,
    feed (initialModel (inputs := fixedInputs) "feat" "" "add a parser" "") []
         [KeyMsg KeyEnter; KeyMsg KeyShiftTab; KeyMsg KeyShiftTab; KeyMsg (KeyOther 7);
          OtherMsg 0; KeyMsg KeyEnter; KeyMsg KeyEnter; KeyMsg KeyEnter] =
      Continues (m', c, ch') /\
    (indexNumber commitTypeIndex <= viewing m' <= indexNumber breakingChangeIndex)%Z /\
    View m' = Returns shown.
Proof.
  assert (H : (0 <= viewing (initialModel (inputs := fixedInputs)
                               "feat" "" "add a parser" "") <= 3)%Z)
    by (cbn; lia).
  split; [exact H|].
  exact (@feed_stays_in_range fixedInputs _ _ H).
Defined.

Lemma feed_channel_witness :
  ((0 <= viewing (initialModel (inputs := fixedInputs) "" "" "" "") <= 3)%Z /\
   feed (initialModel (inputs := fixedInputs) "" "" "" "") []
        [KeyMsg KeyEnter; KeyMsg KeyCtrlC; KeyMsg KeyEnter] =
     Continues (mkComposer (inputs := fixedInputs)
                  (setCommit (modelOf "" "" "" "") commitTypeIndex "")
                  1 "" "" "" "", Quit, [""])) /\
  [""] = [if ready (setCommit (modelOf "" "" "" "") commitTypeIndex "")
          then value (setCommit (modelOf "" "" "" "") commitTypeIndex "")
          else ""].
Proof.
  assert (H1 : (0 <= viewing (initialModel (inputs := fixedInputs) "" "" "" "")
                  <= 3)%Z) by (cbn; lia).
  assert (H2 : feed (initialModel (inputs := fixedInputs) "" "" "" "") []
                    [KeyMsg KeyEnter; KeyMsg KeyCtrlC; KeyMsg KeyEnter] =
               Continues (mkComposer (inputs := fixedInputs)
                            (setCommit (modelOf "" "" "" "") commitTypeIndex "")
                            1 "" "" "" "", Quit, [""]))
    by reflexivity.
  split; [split; [exact H1 | exact H2]|].
  exact (@feed_channel fixedInputs _ _ _ _ _ H1 H2).
Defined.

Lemma Update_enter_not_ready_witness :
  (viewing (mkComposer (inputs := fixedInputs) (modelOf "feat" "" "" "")
                       3 "feat" "" "" "drops v1") =
     indexNumber breakingChangeIndex /\
   ready (modelOf "feat" "" "" "") = false) /\
  exists m',
    Update (mkComposer (inputs := fixedInputs) (modelOf "feat" "" "" "")
                       3 "feat" "" "" "drops v1") [] (KeyMsg KeyEnter) =
      Continues (m', CmdNil, []) /\
    commit (texts m') breakingChangeIndex = "drops v1" /\
    ("feat" = "" /\ viewing m' = indexNumber commitTypeIndex \/
     "feat" <> "" /\ "" = "" /\ viewing m' = indexNumber shortDescriptionIndex).
Proof.
  split; [split; reflexivity|].
  exact (@Update_enter_not_ready fixedInputs
           (mkComposer (inputs := fixedInputs) (modelOf "feat" "" "" "")
                       3 "feat" "" "" "drops v1") [] eq_refl eq_refl).
Defined.

Lemma feed_four_enters_witness :
  ("feat" <> "" /\ "add a parser" <> "") /\
  exists m',
    feed (initialModel (inputs := fixedInputs) "feat" "core" "add a parser" "drops v1") []
         [KeyMsg KeyEnter; KeyMsg KeyEnter; KeyMsg KeyEnter; KeyMsg KeyEnter] =
    Continues (m', Quit, [value (modelOf "feat" "" "add a parser" "drops v1")]) /\
    forall i,
      commit (texts m') i = commit (modelOf "feat" "" "add a parser" "drops v1") i.
Proof.
  assert (H1 : "feat" <> "") by discriminate.
  assert (H2 : "add a parser" <> "") by discriminate.
  split; [auto|].
  exact (@feed_four_enters fixedInputs "feat" "core" "add a parser" "drops v1" H1 H2).
Defined.

Lemma feed_shift_tabs_witness :
  (0 <= viewing (mkComposer (inputs := fixedInputs) (modelOf "feat" "" "" "")
                            2 "feat" "" "" ""))%Z /\
  feed (mkComposer (inputs := fixedInputs) (modelOf "feat" "" "" "") 2 "feat" "" "" "")
       [] (repeat (KeyMsg KeyShiftTab) 5) =
  Continues (mkComposer (inputs := fixedInputs) (modelOf "feat" "" "" "") 0 "feat" "" "" "", CmdNil, []).
Proof.
  split; [cbn; lia|].
  exact (@feed_shift_tabs fixedInputs 5
           (mkComposer (inputs := fixedInputs) (modelOf "feat" "" "" "")
                       2 "feat" "" "" "") [] ltac:(cbn; lia)).
Defined.
